(** * Getting-higher-res-images: stitching deep-zoom tiles into one image

    A shallow embedding of the notebook's three functions, [get_json],
    [get_highest_level] and [download_image], and the properties of the
    level selection and of the tile compositing loop.

    Python integers are [Z]; the parsed descriptor is a record of levels,
    each a record with its tiles, as the notebook reads it.  The libraries
    the notebook calls are not part of the program: [requests.get],
    [response.json], [Image.open], [Image.save] and [slugify] are fields of
    an environment [env], each returning either a value or the exception it
    raises.  PIL's [Image.new] and [Image.paste] are modelled on rasters
    stored row by row: both convert the integers they are handed to C ints
    and raise OverflowError outside that range, [Image.new] may be refused
    its memory, and [paste] clips the pasted region to the canvas.
    Statements run in a state monad over a [world] that records the
    requests issued, the files written and what was displayed. *)

From Stdlib Require Import String Ascii ZArith Bool Lia Permutation List.
Import ListNotations.
Local Open Scope string_scope.
Local Open Scope list_scope.
Local Open Scope Z_scope.

Set Implicit Arguments.

(** ** Exceptions and results *)

(** The exceptions the notebook's own statements raise, and [LibError] for
    whatever a library call raises (connection errors, timeouts, JSON and
    image decoding errors), tagged with the exception's class name. *)
Inductive exn : Type :=
| UnboundLocalError (var : string)
| AttributeError (msg : string)
| ValueError (msg : string)
| OverflowError (msg : string)
| LibError (cls : string) (msg : string).

Definition exn_class (e : exn) : string :=
  match e with
  | UnboundLocalError _ => "UnboundLocalError"
  | AttributeError _ => "AttributeError"
  | ValueError _ => "ValueError"
  | OverflowError _ => "OverflowError"
  | LibError cls _ => cls
  end.

Inductive result (A : Type) : Type :=
| Ok (a : A)
| Raise (e : exn).
Arguments Ok {A} a.
Arguments Raise {A} e.

(** ** The data of a descriptor ([tiles.json]) *)

Record tile : Type := Tile {
  tile_url : string;   (* tile['url'] *)
  tile_x : Z;          (* tile['x'] *)
  tile_y : Z           (* tile['y'] *)
}.

Record level : Type := Level {
  level_name : string;        (* level['name'] *)
  level_width : Z;            (* level['width'] *)
  level_height : Z;           (* level['height'] *)
  level_tiles : list tile     (* level['tiles'] *)
}.

Record descriptor : Type := Descriptor {
  levels : list level         (* data['levels'] *)
}.

(** ** Rasters *)

Definition rgb : Type := (Z * Z * Z)%type.
Definition black : rgb := (0, 0, 0).

(** A PIL image: its [size] attribute [(width, height)] and its pixels,
    one list per row. *)
Record image : Type := Image {
  size : Z * Z;
  pix : list (list rgb)
}.

Definition in_bounds (im : image) (i j : Z) : bool :=
  (0 <=? i) && (i <? fst (size im)) && (0 <=? j) && (j <? snd (size im)).

(** Pixel in column [i] of row [j]. *)
Definition getpixel (im : image) (i j : Z) : rgb :=
  nth (Z.to_nat i) (nth (Z.to_nat j) (pix im) []) black.

(** The same, with [None] outside the raster. *)
Definition pixel_at (im : image) (i j : Z) : option rgb :=
  if in_bounds im i j then Some (getpixel im i j) else None.

(** The all-black raster of [w] columns and [h] rows. *)
Definition blank (w h : Z) : image :=
  Image (w, h) (repeat (repeat black (Z.to_nat w)) (Z.to_nat h)).

(** The ranges of a C [int] and of a C [long] (64 bits): the image library
    converts the integers it is handed to C ints. *)
Definition INT_MAX : Z := 2147483647.
Definition INT_MIN : Z := -2147483648.
Definition LONG_MAX : Z := 9223372036854775807.
Definition LONG_MIN : Z := -9223372036854775808.

(** A Python integer parsed as a C [int] argument. *)
Definition as_c_int (n : Z) : result Z :=
  if (n >? LONG_MAX) || (n <? LONG_MIN)
  then Raise (OverflowError "Python int too large to convert to C long")
  else if n >? INT_MAX
  then Raise (OverflowError "signed integer is greater than maximum")
  else if n <? INT_MIN
  then Raise (OverflowError "signed integer is less than minimum")
  else Ok n.

Fixpoint mapi_from (A B : Type) (k : Z) (f : Z -> A -> B) (l : list A) : list B :=
  match l with
  | [] => []
  | a :: l' => f k a :: mapi_from (k + 1) f l'
  end.

(** Is canvas point [(i, j)] inside the rectangle of size [sz] whose
    top-left corner is [box]? *)
Definition in_box (box sz : Z * Z) (i j : Z) : bool :=
  (fst box <=? i) && (i <? fst box + fst sz) &&
  (snd box <=? j) && (j <? snd box + snd sz).

(** What [paste] writes: the pixels of [im] from [(x, y)] on; what falls
    outside the canvas is dropped, the canvas keeps its size. *)
Definition paste (canvas im : image) (box : Z * Z) : image :=
  Image (size canvas)
    (mapi_from 0
       (fun j row =>
          mapi_from 0
            (fun i p =>
               if in_box box (size im) i j
               then getpixel im (i - fst box) (j - snd box)
               else p)
            row)
       (pix canvas)).

(** [canvas.paste(im, box=(x, y))]: the box is completed with its far
    corner, the four coordinates are converted to C ints, and the pixels
    are written. *)
Definition Image_paste (canvas im : image) (box : Z * Z) : result image :=
  match as_c_int (fst box) with
  | Raise e => Raise e
  | Ok _ =>
  match as_c_int (snd box) with
  | Raise e => Raise e
  | Ok _ =>
  match as_c_int (fst box + fst (size im)) with
  | Raise e => Raise e
  | Ok _ =>
  match as_c_int (snd box + snd (size im)) with
  | Raise e => Raise e
  | Ok _ => Ok (paste canvas im box)
  end end end end.

(** ** Strings *)

Fixpoint strip_prefix (p s : string) : option string :=
  match p, s with
  | EmptyString, _ => Some s
  | String a p', String b s' =>
      if Ascii.eqb a b then strip_prefix p' s' else None
  | String _ _, EmptyString => None
  end.

(** Does [p] occur somewhere in [s]? *)
Fixpoint occurs (p s : string) : bool :=
  match strip_prefix p s with
  | Some _ => true
  | None =>
      match s with
      | EmptyString => false
      | String _ s' => occurs p s'
      end
  end.

Definition newline : ascii := Ascii.ascii_of_nat 10.
Definition dquote : ascii := Ascii.ascii_of_nat 34.

(** What [.*] matches: everything up to the end of the line. *)
Fixpoint take_line (s : string) : string :=
  match s with
  | EmptyString => EmptyString
  | String a s' =>
      if Ascii.eqb a newline then EmptyString else String a (take_line s')
  end.

(** [re.search] of the pattern "resource/" followed by a group for the rest
    of the line, in [url]: [group(1)] of the leftmost match, or [None] when
    the pattern does not occur. *)
Fixpoint re_search_resource (url : string) : option string :=
  match strip_prefix "resource/" url with
  | Some rest => Some (take_line rest)
  | None =>
      match url with
      | EmptyString => None
      | String _ url' => re_search_resource url'
      end
  end.

(** [s.rstrip('/')] *)
Fixpoint rstrip_slash (s : string) : string :=
  match s with
  | EmptyString => EmptyString
  | String a s' =>
      match rstrip_slash s' with
      | EmptyString => if Ascii.eqb a "/" then EmptyString else String a EmptyString
      | r => String a r
      end
  end.

(** ** The environment: the libraries and the outside world *)

Record response : Type := Response {
  status_code : Z;
  content : string
}.

Record env : Type := Env {
  requests_get : string -> result response;   (* requests.get(url) *)
  json_loads : string -> result descriptor;   (* response.json(), from the body *)
  Image_open : string -> result image;        (* Image.open(BytesIO(bytes)),
                                                 with the decoding that PIL
                                                 delays until the paste *)
  Image_alloc : Z -> Z -> option exn;         (* the memory of a new image
                                                 may be refused *)
  Image_save : string -> image -> option exn; (* the encoder may refuse *)
  slugify : string -> string
}.

(** What one run leaves behind: the URLs requested, in order, the files
    written (name and the raster handed to the encoder) and what was
    displayed. *)
Record world : Type := World {
  requests : list string;
  files : list (string * image);
  displayed : list string
}.

(** [Image.new('RGB', (w, h))]: a black raster.  A negative size is
    refused, the sizes are converted to C ints, and the raster has to be
    allocated. *)
Definition Image_new (E : env) (w h : Z) : result image :=
  if (w <? 0) || (h <? 0)
  then Raise (ValueError "Width and height must be >= 0")
  else
    match as_c_int w with
    | Raise e => Raise e
    | Ok _ =>
    match as_c_int h with
    | Raise e => Raise e
    | Ok _ =>
    match Image_alloc E w h with
    | Some e => Raise e
    | None => Ok (blank w h)
    end end end.

Definition M (A : Type) : Type := world -> result A * world.

Definition ret (A : Type) (a : A) : M A := fun w => (Ok a, w).

Definition bind (A B : Type) (m : M A) (k : A -> M B) : M B :=
  fun w =>
    match m w with
    | (Ok a, w') => k a w'
    | (Raise e, w') => (Raise e, w')
    end.

Definition lift (A : Type) (r : result A) : M A := fun w => (r, w).

Notation "x <- m ;; k" := (bind m (fun x => k))
  (at level 61, m at next level, right associativity).
Notation "m ;;; k" := (bind m (fun _ => k))
  (at level 61, right associativity).

Definition http_get (E : env) (u : string) : M response :=
  fun w => (requests_get E u,
            World (requests w ++ [u]) (files w) (displayed w)).

Definition save (E : env) (name : string) (im : image) : M unit :=
  fun w =>
    match Image_save E name im with
    | Some e => (Raise e, w)
    | None => (Ok tt, World (requests w) (files w ++ [(name, im)]) (displayed w))
    end.

Definition display (s : string) : M unit :=
  fun w => (Ok tt, World (requests w) (files w) (displayed w ++ [s])).

(** ** The notebook's functions *)

Definition get_json (E : env) (url : string) : M descriptor :=
  let json_url := (rstrip_slash url ++ "/" ++ "tiles.json")%string in
  response <- http_get E json_url ;;
  data <- lift (json_loads E (content response)) ;;
  ret data.

(** The [for] loop of [get_highest_level]: the value of the local
    [highest_zoom] when the loop ends, [None] while it is unassigned. *)
Fixpoint find_z0 (ls : list level) : option level :=
  match ls with
  | [] => None
  | lvl :: rest =>
      if String.eqb (level_name lvl) "z0" then Some lvl else find_z0 rest
  end.

Definition get_highest_level (data : descriptor) : result level :=
  match find_z0 (levels data) with
  | Some highest_zoom => Ok highest_zoom
  | None => Raise (UnboundLocalError "highest_zoom")
  end.

(** The locals of [download_image] that the tile loop assigns. *)
Record locals : Type := Locals {
  img : image;
  tile_wh : option (Z * Z);   (* tile_w, tile_h *)
  id : option string
}.

Definition no_group : exn :=
  AttributeError "'NoneType' object has no attribute 'group'".

(** The body of [for index, tile in enumerate(level['tiles'])], run on the
    tiles that remain. *)
Fixpoint for_tiles (E : env) (url : string) (index : nat) (ts : list tile)
    (st : locals) : M locals :=
  match ts with
  | [] => ret st
  | tile :: rest =>
      response <- http_get E (tile_url tile) ;;
      tile_img <- lift (Image_open E (content response)) ;;
      let wh := if Nat.eqb index 0 then Some (size tile_img) else tile_wh st in
      cell <- lift (match wh with
                    | Some c => Ok c
                    | None => Raise (UnboundLocalError "tile_w")
                    end) ;;
      let x := tile_x tile * fst cell in
      let y := tile_y tile * snd cell in
      img' <- lift (Image_paste (img st) tile_img (x, y)) ;;
      g <- lift (match re_search_resource url with
                 | Some g => Ok g
                 | None => Raise no_group
                 end) ;;
      for_tiles E url (S index) rest (Locals img' wh (Some g))
  end.

(** The compositing part of [download_image]: from [w = level['width']] to
    the end of the tile loop. *)
Definition compose (E : env) (url : string) (lvl : level) : M locals :=
  let w := level_width lvl in
  let h := level_height lvl in
  img0 <- lift (Image_new E w h) ;;
  for_tiles E url 0 (level_tiles lvl) (Locals img0 None None).

Definition download_image (E : env) (url : string) : M unit :=
  data <- get_json E url ;;
  lvl <- lift (get_highest_level data) ;;
  st <- compose E url lvl ;;
  ident <- lift (match id st with
                 | Some i => Ok i
                 | None => Raise (UnboundLocalError "id")
                 end) ;;
  let image_name := ("slsa-" ++ slugify E ident ++ ".jpg")%string in
  save E image_name (img st) ;;;
  display image_name ;;;
  display ("<img src=" ++ String dquote image_name
             ++ String dquote ">")%string.

(** ** What the program expects of [slugify]

    python-slugify is a library, not part of the notebook.  [slugify_ascii]
    follows its default pipeline on ASCII text that holds no character
    reference (no ampersand): runs of quotes become a dash, the text is
    lowercased, commas between digits go, every run of characters other than
    letters, digits and dashes becomes one dash, repeated dashes collapse
    and the dashes at both ends are stripped. *)

Definition code (a : ascii) : nat := nat_of_ascii a.

Definition is_digit (a : ascii) : bool := (48 <=? code a)%nat && (code a <=? 57)%nat.
Definition is_lower (a : ascii) : bool := (97 <=? code a)%nat && (code a <=? 122)%nat.
Definition is_upper (a : ascii) : bool := (65 <=? code a)%nat && (code a <=? 90)%nat.
Definition is_dash (a : ascii) : bool := Ascii.eqb a "-".
Definition is_quote (a : ascii) : bool := Ascii.eqb a "'".

Definition to_lower (a : ascii) : ascii :=
  if is_upper a then ascii_of_nat (code a + 32) else a.

(** The characters the library keeps. *)
Definition allowed (a : ascii) : bool :=
  is_dash a || is_lower a || is_upper a || is_digit a.

(** Replace every maximal run of characters satisfying [p] by one dash. *)
Fixpoint sub_runs (p : ascii -> bool) (in_run : bool) (l : list ascii) : list ascii :=
  match l with
  | [] => []
  | a :: l' =>
      if p a
      then if in_run then sub_runs p true l' else "-"%char :: sub_runs p true l'
      else a :: sub_runs p false l'
  end.

(** Drop the commas that stand between two digits. *)
Fixpoint drop_digit_commas (prev_digit : bool) (l : list ascii) : list ascii :=
  match l with
  | [] => []
  | a :: l' =>
      let next_digit := match l' with b :: _ => is_digit b | [] => false end in
      if Ascii.eqb a "," && prev_digit && next_digit
      then drop_digit_commas false l'
      else a :: drop_digit_commas (is_digit a) l'
  end.

Fixpoint collapse_dashes (l : list ascii) : list ascii :=
  match l with
  | a :: (b :: _) as l' =>
      if is_dash a && is_dash b then collapse_dashes l' else a :: collapse_dashes l'
  | _ => l
  end.

Fixpoint lstrip_dashes (l : list ascii) : list ascii :=
  match l with
  | a :: l' => if is_dash a then lstrip_dashes l' else l
  | [] => []
  end.

Definition strip_dashes (l : list ascii) : list ascii :=
  rev (lstrip_dashes (rev (lstrip_dashes l))).

Definition slugify_ascii (s : string) : string :=
  let t := sub_runs is_quote false (list_ascii_of_string s) in
  let t := map to_lower t in
  let t := filter (fun a => negb (is_quote a)) t in
  let t := drop_digit_commas false t in
  let t := sub_runs (fun a => negb (allowed a)) false t in
  string_of_list_ascii (strip_dashes (collapse_dashes t)).

(** The alphabet of a slug. *)
Definition slug_char (a : ascii) : bool := is_dash a || is_lower a || is_digit a.

Definition plain_text (s : string) : bool :=
  forallb (fun a => (code a <? 128)%nat && negb (Ascii.eqb a "&"))
          (list_ascii_of_string s).

Record slugify_contract (sl : string -> string) : Prop := {
  slug_alphabet : forall s, forallb slug_char (list_ascii_of_string (sl s)) = true;
  slug_plain : forall s, plain_text s = true -> sl s = slugify_ascii s
}.

(** ** Notions the statements use *)

(** The pixel rows agree with the declared size. *)
Definition well_formed (im : image) : Prop :=
  0 <= fst (size im) /\ 0 <= snd (size im) /\
  length (pix im) = Z.to_nat (snd (size im)) /\
  Forall (fun r => length r = Z.to_nat (fst (size im))) (pix im).

(** The raster a tile reference stands for: its URL fetched, the body
    decoded. *)
Definition tile_image (E : env) (t : tile) : result image :=
  match requests_get E (tile_url t) with
  | Ok r => Image_open E (content r)
  | Raise e => Raise e
  end.

Definition decoded (E : env) (t : tile) : image :=
  match tile_image E t with
  | Ok im => im
  | Raise _ => Image (0, 0) []
  end.

(** Where a tile goes, for a cell size. *)
Definition offset (cell : Z * Z) (t : tile) : Z * Z :=
  (tile_x t * fst cell, tile_y t * snd cell).

Definition fits_c_int (n : Z) : bool := (INT_MIN <=? n) && (n <=? INT_MAX).

(** Do the corners of the rectangle of size [sz] at [box] fit C ints? *)
Definition box_fits (box sz : Z * Z) : bool :=
  fits_c_int (fst box) && fits_c_int (snd box) &&
  fits_c_int (fst box + fst sz) && fits_c_int (snd box + snd sz).

(** [img.paste] accepts the box of every tile, for a cell size. *)
Definition all_paste (E : env) (cell : Z * Z) (ts : list tile) : Prop :=
  forall t, In t ts -> box_fits (offset cell t) (size (decoded E t)) = true.

(** The cell size in force: the size of the first tile's raster. *)
Definition first_cell (E : env) (ts : list tile) : Z * Z :=
  match ts with
  | [] => (0, 0)
  | t0 :: _ => size (decoded E t0)
  end.

Definition place (E : env) (cell : Z * Z) (c : image) (t : tile) : image :=
  paste c (decoded E t) (offset cell t).

(** The world after the requests [us] on top of [w]. *)
Definition logged (w : world) (us : list string) : world :=
  World (requests w ++ us) (files w) (displayed w).

(** Does the rectangle of tile [t] contain canvas point [(i, j)]? *)
Definition covers (E : env) (cell : Z * Z) (t : tile) (i j : Z) : bool :=
  in_box (offset cell t) (size (decoded E t)) i j.

(** The pixel of tile [t] that lands on canvas point [(i, j)]. *)
Definition tile_pixel (E : env) (cell : Z * Z) (t : tile) (i j : Z) : rgb :=
  getpixel (decoded E t) (i - fst (offset cell t)) (j - snd (offset cell t)).

Definition tiles_json_url (url : string) : string :=
  (rstrip_slash url ++ "/" ++ "tiles.json")%string.

(** The level [download_image] works on: the descriptor fetched, parsed and
    searched. *)
Definition selected (E : env) (url : string) : result level :=
  match requests_get E (tiles_json_url url) with
  | Ok r =>
      match json_loads E (content r) with
      | Ok data => get_highest_level data
      | Raise e => Raise e
      end
  | Raise e => Raise e
  end.

Definition image_name_of (E : env) (ident : string) : string :=
  ("slsa-" ++ slugify E ident ++ ".jpg")%string.

Definition img_tag (name : string) : string :=
  ("<img src=" ++ String dquote name ++ String dquote ">")%string.

Definition disjoint_on (E : env) (cell : Z * Z) (W H : Z) (t1 t2 : tile) : Prop :=
  forall i j, 0 <= i < W -> 0 <= j < H ->
    ~ (covers E cell t1 i j = true /\ covers E cell t2 i j = true).

Definition lowered (a : ascii) : Prop := is_upper a = false.
Definition slug (a : ascii) : Prop := slug_char a = true.

Definition all_decode (E : env) (ts : list tile) : Prop :=
  forall t, In t ts -> exists im, tile_image E t = Ok im.

(** Every tile decodes to a raster of size [cell]. *)
Definition uniform (E : env) (cell : Z * Z) (ts : list tile) : Prop :=
  forall t, In t ts -> exists im, tile_image E t = Ok im /\ size im = cell.

(** The same environment, answering with other status codes. *)
Definition with_status (f : Z -> Z) (E : env) : env :=
  Env (fun u =>
         match requests_get E u with
         | Ok r => Ok (Response (f (status_code r)) (content r))
         | Raise e => Raise e
         end)
      (json_loads E) (Image_open E) (Image_alloc E) (Image_save E) (slugify E).

(** What [compose] leaves in [img], or the exception it raises. *)
Definition composed (E : env) (url : string) (lvl : level) (w : world)
  : result image :=
  match fst (compose E url lvl w) with
  | Ok st => Ok (img st)
  | Raise e => Raise e
  end.

Definition with_tiles (lvl : level) (ts : list tile) : level :=
  Level (level_name lvl) (level_width lvl) (level_height lvl) ts.

(** ** A small world to run the notebook in *)

(** A [w] by [h] raster whose pixel [(a, b)] is [(a, b, k)]. *)
Definition ramp (w h k : Z) : image :=
  Image (w, h)
    (mapi_from 0 (fun b row => mapi_from 0 (fun a _ => (a, b, k)) row)
       (repeat (repeat black (Z.to_nat w)) (Z.to_nat h))).

Definition demo_open (body : string) : result image :=
  if (body =? "t00")%string then Ok (ramp 50 50 0)
  else if (body =? "t10")%string then Ok (ramp 50 50 1)
  else if (body =? "t20")%string then Ok (ramp 50 50 2)
  else if (body =? "t01")%string then Ok (ramp 50 50 3)
  else if (body =? "t11")%string then Ok (ramp 50 50 4)
  else if (body =? "t21")%string then Ok (ramp 50 50 5)
  else Raise (LibError "UnidentifiedImageError" "cannot identify image file").

(** Every request is answered, with [status] and the URL itself as body;
    the descriptor holds [lvls]. *)
Definition demo_env (status : string -> Z) (lvls : list level) : env :=
  Env (fun u => Ok (Response (status u) u))
      (fun _ => Ok (Descriptor lvls))
      demo_open
      (fun _ _ => None)
      (fun _ _ => None)
      slugify_ascii.

Definition all_200 (u : string) : Z := 200.

Definition level_2x2 : level :=
  Level "z0" 100 100
    [Tile "t00" 0 0; Tile "t10" 1 0; Tile "t01" 0 1; Tile "t11" 1 1].

Definition level_3x2 : level :=
  Level "z0" 120 100
    [Tile "t00" 0 0; Tile "t10" 1 0; Tile "t20" 2 0;
     Tile "t01" 0 1; Tile "t11" 1 1; Tile "t21" 2 1].

Definition photo_url : string := "https://host/resource/B+43122".

Definition w0 : world := World [] [] [].

Definition demo_2x2 : env := demo_env all_200 [level_2x2].

Definition level_broken : level :=
  Level "z0" 100 100
    [Tile "t00" 0 0; Tile "t10" 1 0; Tile "oops" 0 1; Tile "t11" 1 1].

Definition tile_11_is_404 (u : string) : Z :=
  if (u =? "t11")%string then 404 else 200.

(** The environment [E] with the host of [bad] unreachable. *)
Definition offline (bad : string) (E : env) : env :=
  Env (fun u =>
         if (u =? bad)%string
         then Raise (LibError "ConnectionError" "connection refused")
         else requests_get E u)
      (json_loads E) (Image_open E) (Image_alloc E) (Image_save E) (slugify E).

Definition demo_3x2 : env := demo_env all_200 [level_3x2].

(** ** Notions for the rest of the notebook's behaviour *)

(** The string of [n] slashes. *)
Fixpoint slashes (n : nat) : string :=
  match n with
  | O => EmptyString
  | S n' => String "/" (slashes n')
  end.

Fixpoint ends_with_slash (s : string) : bool :=
  match s with
  | EmptyString => false
  | String a EmptyString => Ascii.eqb a "/"
  | String _ s' => ends_with_slash s'
  end.

(** The canvas of a level once every tile is pasted, the cell being the
    size of the first tile. *)
Definition stitched (E : env) (lvl : level) : image :=
  match level_tiles lvl with
  | [] => blank (level_width lvl) (level_height lvl)
  | t0 :: _ =>
      fold_left (place E (size (decoded E t0))) (level_tiles lvl)
                (blank (level_width lvl) (level_height lvl))
  end.

(** A level wider than its two columns of tiles. *)
Definition level_gap : level :=
  Level "z0" 120 100
    [Tile "t00" 0 0; Tile "t10" 1 0; Tile "t01" 0 1; Tile "t11" 1 1].

Definition demo_gap : env := demo_env all_200 [level_gap].

(** ** Facts about rasters *)

Lemma mapi_from_length (A B : Type) (f : Z -> A -> B) (l : list A) :
  forall k, length (mapi_from k f l) = length l.
Proof.
  induction l as [|a l IH]; intros k; simpl; [reflexivity|].
  now rewrite IH.
Qed.

Lemma nth_mapi_from (A B : Type) (f : Z -> A -> B) (l : list A) :
  forall k n d d',
    (n < length l)%nat ->
    nth n (mapi_from k f l) d' = f (k + Z.of_nat n) (nth n l d).
Proof.
  induction l as [|a l IH]; intros k n d d' Hn; simpl in Hn; [lia|].
  destruct n as [|n]; simpl.
  - f_equal. lia.
  - rewrite (IH (k + 1) n d d') by lia. f_equal. lia.
Qed.

Lemma in_bounds_spec (im : image) (i j : Z) :
  in_bounds im i j = true <->
  0 <= i < fst (size im) /\ 0 <= j < snd (size im).
Proof.
  unfold in_bounds.
  rewrite !andb_true_iff, !Z.leb_le, !Z.ltb_lt. lia.
Qed.

Lemma in_box_spec (box sz : Z * Z) (i j : Z) :
  in_box box sz i j = true <->
  fst box <= i < fst box + fst sz /\ snd box <= j < snd box + snd sz.
Proof.
  unfold in_box.
  rewrite !andb_true_iff, !Z.leb_le, !Z.ltb_lt. lia.
Qed.

Lemma fits_c_int_spec (n : Z) :
  fits_c_int n = true <-> INT_MIN <= n <= INT_MAX.
Proof. unfold fits_c_int. rewrite andb_true_iff, !Z.leb_le. tauto. Qed.

Lemma as_c_int_ok (n : Z) : fits_c_int n = true -> as_c_int n = Ok n.
Proof.
  intros Hn. apply fits_c_int_spec in Hn. unfold INT_MIN, INT_MAX in Hn.
  unfold as_c_int, LONG_MAX, LONG_MIN, INT_MAX, INT_MIN.
  replace (n >? 9223372036854775807) with false
    by (symmetry; rewrite Z.gtb_ltb; apply Z.ltb_ge; lia).
  replace (n <? -9223372036854775808) with false
    by (symmetry; apply Z.ltb_ge; lia).
  replace (n >? 2147483647) with false
    by (symmetry; rewrite Z.gtb_ltb; apply Z.ltb_ge; lia).
  replace (n <? -2147483648) with false by (symmetry; apply Z.ltb_ge; lia).
  reflexivity.
Qed.

Lemma as_c_int_inv (n m : Z) : as_c_int n = Ok m -> fits_c_int n = true.
Proof.
  unfold as_c_int. intros Hc. apply fits_c_int_spec.
  destruct ((n >? LONG_MAX) || (n <? LONG_MIN)); [discriminate|].
  destruct (n >? INT_MAX) eqn:Hhi; [discriminate|].
  destruct (n <? INT_MIN) eqn:Hlo; [discriminate|].
  rewrite Z.gtb_ltb in Hhi. apply Z.ltb_ge in Hhi, Hlo. lia.
Qed.

Lemma as_c_int_overflow (n : Z) :
  fits_c_int n = false -> exists msg, as_c_int n = Raise (OverflowError msg).
Proof.
  intros Hn. unfold as_c_int.
  destruct ((n >? LONG_MAX) || (n <? LONG_MIN)); [eauto|].
  destruct (n >? INT_MAX) eqn:Hhi; [eauto|].
  destruct (n <? INT_MIN) eqn:Hlo; [eauto|].
  rewrite Z.gtb_ltb in Hhi. apply Z.ltb_ge in Hhi, Hlo.
  assert (fits_c_int n = true) by (apply fits_c_int_spec; lia).
  congruence.
Qed.

Lemma box_fits_spec (box sz : Z * Z) :
  box_fits box sz = true <->
  fits_c_int (fst box) = true /\ fits_c_int (snd box) = true /\
  fits_c_int (fst box + fst sz) = true /\ fits_c_int (snd box + snd sz) = true.
Proof. unfold box_fits. rewrite !andb_true_iff. tauto. Qed.

Lemma Image_paste_ok (c im : image) (box : Z * Z) :
  box_fits box (size im) = true -> Image_paste c im box = Ok (paste c im box).
Proof.
  intros Hb. apply box_fits_spec in Hb. destruct Hb as (H1 & H2 & H3 & H4).
  unfold Image_paste.
  now rewrite (as_c_int_ok _ H1), (as_c_int_ok _ H2), (as_c_int_ok _ H3),
    (as_c_int_ok _ H4).
Qed.

Lemma Image_paste_inv (c im c' : image) (box : Z * Z) :
  Image_paste c im box = Ok c' ->
  box_fits box (size im) = true /\ c' = paste c im box.
Proof.
  unfold Image_paste. intros Hp.
  destruct (as_c_int (fst box)) eqn:H1; [|discriminate].
  destruct (as_c_int (snd box)) eqn:H2; [|discriminate].
  destruct (as_c_int (fst box + fst (size im))) eqn:H3; [|discriminate].
  destruct (as_c_int (snd box + snd (size im))) eqn:H4; [|discriminate].
  injection Hp as <-. split; [|reflexivity].
  apply box_fits_spec.
  repeat split; eapply as_c_int_inv; eassumption.
Qed.

Lemma Image_paste_overflow (c im : image) (box : Z * Z) :
  box_fits box (size im) = false ->
  exists msg, Image_paste c im box = Raise (OverflowError msg).
Proof.
  intros Hb. unfold Image_paste.
  destruct (fits_c_int (fst box)) eqn:H1;
    [rewrite (as_c_int_ok _ H1)
    |destruct (as_c_int_overflow _ H1) as [m ->]; eauto].
  destruct (fits_c_int (snd box)) eqn:H2;
    [rewrite (as_c_int_ok _ H2)
    |destruct (as_c_int_overflow _ H2) as [m ->]; eauto].
  destruct (fits_c_int (fst box + fst (size im))) eqn:H3;
    [rewrite (as_c_int_ok _ H3)
    |destruct (as_c_int_overflow _ H3) as [m ->]; eauto].
  destruct (fits_c_int (snd box + snd (size im))) eqn:H4;
    [|destruct (as_c_int_overflow _ H4) as [m ->]; eauto].
  unfold box_fits in Hb. rewrite H1, H2, H3, H4 in Hb. discriminate.
Qed.

Lemma Image_new_ok (E : env) (w h : Z) :
  0 <= w <= INT_MAX -> 0 <= h <= INT_MAX ->
  Image_alloc E w h = None ->
  Image_new E w h = Ok (blank w h).
Proof.
  intros Hw Hh Halloc. unfold Image_new.
  replace (w <? 0) with false by (symmetry; apply Z.ltb_ge; lia).
  replace (h <? 0) with false by (symmetry; apply Z.ltb_ge; lia).
  cbn [orb].
  rewrite (as_c_int_ok w), (as_c_int_ok h), Halloc; [reflexivity| |];
    apply fits_c_int_spec; unfold INT_MIN; lia.
Qed.

Lemma Image_new_inv (E : env) (w h : Z) (c : image) :
  Image_new E w h = Ok c ->
  0 <= w <= INT_MAX /\ 0 <= h <= INT_MAX /\
  Image_alloc E w h = None /\ c = blank w h.
Proof.
  unfold Image_new.
  destruct (w <? 0) eqn:Hw; [discriminate|].
  destruct (h <? 0) eqn:Hh; [discriminate|]. cbn [orb].
  apply Z.ltb_ge in Hw, Hh.
  destruct (as_c_int w) eqn:Hcw; [|discriminate].
  destruct (as_c_int h) eqn:Hch; [|discriminate].
  destruct (Image_alloc E w h); [discriminate|].
  intros [= <-].
  apply as_c_int_inv, fits_c_int_spec in Hcw, Hch. tauto.
Qed.

(** A size [Image.new] turns into a canvas is not negative. *)
Lemma Image_new_nonneg (E : env) (w h : Z) (c : image) :
  Image_new E w h = Ok c -> 0 <= w /\ 0 <= h.
Proof. intros Hn. apply Image_new_inv in Hn. tauto. Qed.

Lemma blank_well_formed (w h : Z) :
  0 <= w -> 0 <= h ->
  well_formed (blank w h).
Proof.
  intros Hw Hh. unfold well_formed; simpl.
  repeat split; try assumption.
  - apply repeat_length.
  - apply Forall_forall. intros r Hr.
    apply repeat_spec in Hr. subst r. apply repeat_length.
Qed.

Lemma paste_size (c im : image) (box : Z * Z) : size (paste c im box) = size c.
Proof. reflexivity. Qed.

Lemma paste_well_formed (c im : image) (box : Z * Z) :
  well_formed c -> well_formed (paste c im box).
Proof.
  intros (Hw & Hh & Hlen & Hrows). unfold well_formed; simpl.
  repeat split; try assumption.
  - now rewrite mapi_from_length.
  - apply Forall_forall. intros r Hr.
    destruct (In_nth _ _ [] Hr) as (n & Hn & Hnth).
    rewrite mapi_from_length in Hn.
    rewrite (nth_mapi_from _ (pix c) 0 [] [] Hn) in Hnth.
    subst r. rewrite mapi_from_length.
    rewrite Forall_forall in Hrows. apply Hrows. now apply nth_In.
Qed.

Lemma getpixel_paste (c im : image) (box : Z * Z) (i j : Z) :
  well_formed c ->
  in_bounds c i j = true ->
  getpixel (paste c im box) i j =
    if in_box box (size im) i j
    then getpixel im (i - fst box) (j - snd box)
    else getpixel c i j.
Proof.
  intros (Hw & Hh & Hlen & Hrows) Hb.
  apply in_bounds_spec in Hb. destruct Hb as [Hi Hj].
  unfold getpixel at 1. unfold paste; simpl.
  assert (Hjn : (Z.to_nat j < length (pix c))%nat) by lia.
  rewrite (nth_mapi_from _ (pix c) 0 [] [] Hjn).
  assert (Hin : (Z.to_nat i < length (nth (Z.to_nat j) (pix c) []))%nat).
  { rewrite Forall_forall in Hrows.
    rewrite (Hrows (nth (Z.to_nat j) (pix c) [])) by now apply nth_In.
    lia. }
  rewrite (nth_mapi_from _ _ 0 black black Hin).
  replace (0 + Z.of_nat (Z.to_nat i)) with i by lia.
  replace (0 + Z.of_nat (Z.to_nat j)) with j by lia.
  reflexivity.
Qed.

Lemma pixel_at_paste (c im : image) (box : Z * Z) (i j : Z) :
  well_formed c ->
  pixel_at (paste c im box) i j =
    if in_bounds c i j
    then Some (if in_box box (size im) i j
               then getpixel im (i - fst box) (j - snd box)
               else getpixel c i j)
    else None.
Proof.
  intros Hwf. unfold pixel_at.
  change (in_bounds (paste c im box) i j) with (in_bounds c i j).
  destruct (in_bounds c i j) eqn:Hb; [|reflexivity].
  now rewrite getpixel_paste.
Qed.

(** Two well-formed rasters of one size with the same pixels are equal. *)
Lemma image_ext (a b : image) :
  well_formed a -> well_formed b -> size a = size b ->
  (forall i j, in_bounds a i j = true -> getpixel a i j = getpixel b i j) ->
  a = b.
Proof.
  destruct a as [sa pa], b as [sb pb].
  intros (Hwa & Hha & Hla & Hra) (Hwb & Hhb & Hlb & Hrb) Hs Hpx.
  simpl in *. subst sb. f_equal.
  rewrite Forall_forall in Hra, Hrb.
  apply (nth_ext pa pb [] []); [congruence|].
  intros n Hn.
  assert (Hn' : (n < length pb)%nat) by congruence.
  apply (nth_ext _ _ black black).
  - rewrite (Hra (nth n pa [])) by now apply nth_In.
    rewrite (Hrb (nth n pb [])) by now apply nth_In.
    reflexivity.
  - intros m Hm.
    rewrite (Hra (nth n pa [])) in Hm by now apply nth_In.
    specialize (Hpx (Z.of_nat m) (Z.of_nat n)).
    unfold getpixel in Hpx; simpl in Hpx.
    rewrite !Nat2Z.id in Hpx. apply Hpx.
    apply in_bounds_spec; simpl. lia.
Qed.

(** ** Facts about the tile loop *)

Lemma logged_nil (w : world) : logged w [] = w.
Proof. destruct w. unfold logged; simpl. now rewrite app_nil_r. Qed.

Lemma logged_logged (w : world) (us vs : list string) :
  logged (logged w us) vs = logged w (us ++ vs).
Proof. unfold logged; simpl. now rewrite app_assoc. Qed.

(** One turn of the tile loop. *)
Lemma for_tiles_cons (E : env) (url : string) (index : nat) (t : tile)
    (rest : list tile) (st : locals) (w : world) :
  for_tiles E url index (t :: rest) st w =
    match requests_get E (tile_url t) with
    | Raise e => (Raise e, logged w [tile_url t])
    | Ok r =>
    match Image_open E (content r) with
    | Raise e => (Raise e, logged w [tile_url t])
    | Ok im =>
    match (if Nat.eqb index 0 then Some (size im) else tile_wh st) with
    | None => (Raise (UnboundLocalError "tile_w"), logged w [tile_url t])
    | Some cell =>
    match Image_paste (img st) im
            (tile_x t * fst cell, tile_y t * snd cell) with
    | Raise e => (Raise e, logged w [tile_url t])
    | Ok img' =>
    match re_search_resource url with
    | None => (Raise no_group, logged w [tile_url t])
    | Some g =>
        for_tiles E url (S index) rest (Locals img' (Some cell) (Some g))
                  (logged w [tile_url t])
    end end end end end.
Proof.
  cbn [for_tiles]. unfold bind, http_get, lift, logged. cbv beta iota.
  destruct (requests_get E (tile_url t)) as [r|e]; cbv beta iota;
    [|reflexivity].
  destruct (Image_open E (content r)) as [im|e]; cbv beta iota;
    [|reflexivity].
  destruct (if Nat.eqb index 0 then Some (size im) else tile_wh st)
    as [c|]; cbv beta iota; [|reflexivity].
  destruct (Image_paste (img st) im (tile_x t * fst c, tile_y t * snd c));
    cbv beta iota; [|reflexivity].
  now destruct (re_search_resource url).
Qed.

Lemma for_tiles_ok (E : env) (url g : string) (cell : Z * Z) :
  re_search_resource url = Some g ->
  forall ts n st w,
    tile_wh st = Some cell ->
    (forall t, In t ts -> exists im, tile_image E t = Ok im) ->
    all_paste E cell ts ->
    for_tiles E url (S n) ts st w =
      (Ok (Locals (fold_left (place E cell) ts (img st)) (Some cell)
                  (match ts with [] => id st | _ :: _ => Some g end)),
       logged w (map tile_url ts)).
Proof.
  intros Hg ts. induction ts as [|t rest IH]; intros n st w Hwh Hall Hfit.
  - simpl. rewrite logged_nil. destruct st; simpl in *. now subst.
  - destruct (Hall t (or_introl eq_refl)) as [im Him].
    assert (Hd : decoded E t = im) by (unfold decoded; now rewrite Him).
    assert (Hbox := Hfit t (or_introl eq_refl)). rewrite Hd in Hbox.
    unfold tile_image in Him.
    destruct (requests_get E (tile_url t)) as [r|] eqn:Hget; [|discriminate].
    rewrite for_tiles_cons, Hget, Him. cbn [Nat.eqb]. rewrite Hwh.
    change (tile_x t * fst cell, tile_y t * snd cell) with (offset cell t).
    rewrite (Image_paste_ok _ _ _ Hbox), Hg.
    rewrite IH;
      [|reflexivity|intros t' Ht'; apply Hall; now right
       |intros t' Ht'; apply Hfit; now right].
    cbn [img fold_left map]. rewrite logged_logged. cbn [app].
    unfold place at 3. rewrite Hd.
    now destruct rest.
Qed.

Lemma compose_ok (E : env) (url g : string) (lvl : level) (t0 : tile)
    (rest : list tile) (im0 : image) (w : world) :
  Image_new E (level_width lvl) (level_height lvl)
    = Ok (blank (level_width lvl) (level_height lvl)) ->
  re_search_resource url = Some g ->
  level_tiles lvl = t0 :: rest ->
  tile_image E t0 = Ok im0 ->
  (forall t, In t rest -> exists im, tile_image E t = Ok im) ->
  all_paste E (size im0) (t0 :: rest) ->
  compose E url lvl w =
    (Ok (Locals (fold_left (place E (size im0)) (t0 :: rest)
                           (blank (level_width lvl) (level_height lvl)))
                (Some (size im0)) (Some g)),
     logged w (map tile_url (t0 :: rest))).
Proof.
  intros Hnew Hg Hts H0 Hall Hfit.
  assert (Hd : decoded E t0 = im0) by (unfold decoded; now rewrite H0).
  assert (Hbox := Hfit t0 (or_introl eq_refl)). rewrite Hd in Hbox.
  unfold tile_image in H0.
  destruct (requests_get E (tile_url t0)) as [r|] eqn:Hget; [|discriminate].
  unfold compose. rewrite Hts, Hnew.
  unfold bind at 1. unfold lift at 1.
  rewrite for_tiles_cons, Hget, H0. cbn [Nat.eqb img].
  change (tile_x t0 * fst (size im0), tile_y t0 * snd (size im0))
    with (offset (size im0) t0).
  rewrite (Image_paste_ok _ _ _ Hbox), Hg.
  rewrite for_tiles_ok with (cell := size im0) (g := g);
    [|exact Hg|reflexivity|exact Hall|intros t' Ht'; apply Hfit; now right].
  cbn [img fold_left map]. rewrite logged_logged. cbn [app].
  unfold place at 3. rewrite Hd.
  now destruct rest.
Qed.

(** ** What the composed canvas holds *)

Section Fold.
Variable E : env.
Variable cell : Z * Z.

Lemma fold_place_size (ts : list tile) :
  forall c, size (fold_left (place E cell) ts c) = size c.
Proof.
  induction ts as [|t ts IH]; intros c; simpl; [reflexivity|].
  now rewrite IH.
Qed.

Lemma fold_place_well_formed (ts : list tile) :
  forall c, well_formed c -> well_formed (fold_left (place E cell) ts c).
Proof.
  induction ts as [|t ts IH]; intros c Hc; simpl; [assumption|].
  apply IH. now apply paste_well_formed.
Qed.

Lemma pixel_at_place (c : image) (t : tile) (i j : Z) :
  well_formed c ->
  pixel_at (place E cell c t) i j =
    if in_bounds c i j
    then Some (if covers E cell t i j then tile_pixel E cell t i j
               else getpixel c i j)
    else None.
Proof. intros Hc. unfold place. now rewrite pixel_at_paste. Qed.

(** A point no tile covers keeps its pixel. *)
Lemma fold_untouched (i j : Z) (ts : list tile) :
  forall c,
    well_formed c ->
    (forall t, In t ts -> covers E cell t i j = false) ->
    pixel_at (fold_left (place E cell) ts c) i j = pixel_at c i j.
Proof.
  induction ts as [|t ts IH]; intros c Hc Hno; simpl; [reflexivity|].
  rewrite IH.
  - rewrite pixel_at_place by assumption.
    rewrite (Hno t) by now left. reflexivity.
  - now apply paste_well_formed.
  - intros t' Ht'. apply Hno. now right.
Qed.

(** A point of the canvas that some tile covers, all the tiles covering
    it agreeing on the pixel [v], ends up holding [v]. *)
Lemma fold_covered (i j : Z) (v : rgb) (ts : list tile) :
  forall c t,
    well_formed c ->
    in_bounds c i j = true ->
    In t ts -> covers E cell t i j = true ->
    (forall t', In t' ts -> covers E cell t' i j = true ->
                tile_pixel E cell t' i j = v) ->
    pixel_at (fold_left (place E cell) ts c) i j = Some v.
Proof.
  induction ts as [|a ts IH]; intros c t Hc Hb Hin Hcov Hagree;
    [contradiction|].
  simpl.
  destruct (existsb (fun t' => covers E cell t' i j) ts) eqn:Hex.
  - apply existsb_exists in Hex. destruct Hex as (t' & Ht' & Hcov').
    apply (IH _ t').
    + now apply paste_well_formed.
    + exact Hb.
    + exact Ht'.
    + exact Hcov'.
    + intros u Hu. apply Hagree. now right.
  - assert (Hno : forall t', In t' ts -> covers E cell t' i j = false).
    { intros t' Ht'. destruct (covers E cell t' i j) eqn:Hc'; [|reflexivity].
      assert (existsb (fun t' => covers E cell t' i j) ts = true)
        by (apply existsb_exists; eauto).
      congruence. }
    rewrite fold_untouched; [|now apply paste_well_formed|exact Hno].
    rewrite pixel_at_place by assumption. rewrite Hb.
    destruct Hin as [->|Hin].
    + rewrite Hcov. f_equal. apply Hagree; [now left|exact Hcov].
    + rewrite (Hno t Hin) in Hcov. discriminate.
Qed.
End Fold.

(** ** How a run can fail *)


(** The tile loop writes no file and displays nothing, and only adds to the
    requests. *)
Lemma for_tiles_world (E : env) (url : string) (ts : list tile) :
  forall index st w,
    exists us,
      snd (for_tiles E url index ts st w) = logged w us.
Proof.
  induction ts as [|t rest IH]; intros index st w.
  - exists []. simpl. now rewrite logged_nil.
  - rewrite for_tiles_cons.
    destruct (requests_get E (tile_url t)) as [r|e];
      [|exists [tile_url t]; reflexivity].
    destruct (Image_open E (content r)) as [im|e];
      [|exists [tile_url t]; reflexivity].
    destruct (if Nat.eqb index 0 then Some (size im) else tile_wh st)
      as [c|]; [|exists [tile_url t]; reflexivity].
    destruct (Image_paste (img st) im (tile_x t * fst c, tile_y t * snd c))
      as [img'|e]; [|exists [tile_url t]; reflexivity].
    destruct (re_search_resource url) as [g|];
      [|exists [tile_url t]; reflexivity].
    match goal with
    | |- context [for_tiles E url ?n rest ?s ?w'] =>
        destruct (IH n s w') as [us Hus]
    end.
    exists ([tile_url t] ++ us). rewrite Hus. apply logged_logged.
Qed.


Lemma compose_world (E : env) (url : string) (lvl : level) (w : world) :
  exists us, snd (compose E url lvl w) = logged w us.
Proof.
  unfold compose. unfold bind at 1. unfold lift at 1.
  destruct (Image_new E (level_width lvl) (level_height lvl)) as [c|e].
  - apply for_tiles_world.
  - exists []. simpl. now rewrite logged_nil.
Qed.


Lemma compose_empty (E : env) (url : string) (lvl : level) (w : world) :
  Image_new E (level_width lvl) (level_height lvl)
    = Ok (blank (level_width lvl) (level_height lvl)) ->
  level_tiles lvl = [] ->
  compose E url lvl w =
    (Ok (Locals (blank (level_width lvl) (level_height lvl)) None None), w).
Proof.
  intros Hnew Hts. unfold compose.
  now rewrite Hts, Hnew.
Qed.

(** What [Image.new] raises ends the run before the loop. *)
Lemma compose_refused (E : env) (url : string) (lvl : level) (w : world)
    (e : exn) :
  Image_new E (level_width lvl) (level_height lvl) = Raise e ->
  compose E url lvl w = (Raise e, w).
Proof. intros Hnew. unfold compose. now rewrite Hnew. Qed.

Lemma compose_negative (E : env) (url : string) (lvl : level) (w : world) :
  level_width lvl < 0 \/ level_height lvl < 0 ->
  compose E url lvl w =
    (Raise (ValueError "Width and height must be >= 0"), w).
Proof.
  intros Hneg. unfold compose, Image_new.
  assert (Hb : (level_width lvl <? 0) || (level_height lvl <? 0) = true).
  { apply orb_true_iff. rewrite !Z.ltb_lt. exact Hneg. }
  now rewrite Hb.
Qed.

(** With no identifier in the URL, the first tile is still fetched, decoded
    and pasted before [group] is called on [None]. *)
Lemma compose_no_id (E : env) (url : string) (lvl : level) (w : world)
    (t0 : tile) (rest : list tile) (im0 : image) :
  Image_new E (level_width lvl) (level_height lvl)
    = Ok (blank (level_width lvl) (level_height lvl)) ->
  re_search_resource url = None ->
  level_tiles lvl = t0 :: rest ->
  tile_image E t0 = Ok im0 ->
  box_fits (offset (size im0) t0) (size im0) = true ->
  compose E url lvl w = (Raise no_group, logged w [tile_url t0]).
Proof.
  intros Hnew Hnone Hts H0 Hbox.
  unfold tile_image in H0.
  destruct (requests_get E (tile_url t0)) as [r|] eqn:Hget; [|discriminate].
  unfold compose. rewrite Hts, Hnew.
  unfold bind at 1. unfold lift at 1.
  rewrite for_tiles_cons, Hget, H0. cbn [Nat.eqb img].
  change (tile_x t0 * fst (size im0), tile_y t0 * snd (size im0))
    with (offset (size im0) t0).
  now rewrite (Image_paste_ok _ _ _ Hbox), Hnone.
Qed.

(** ** The whole of [download_image], by cases *)

Lemma download_image_cases (E : env) (url : string) (w : world) :
  download_image E url w =
    match selected E url with
    | Raise e => (Raise e, logged w [tiles_json_url url])
    | Ok lvl =>
        match compose E url lvl (logged w [tiles_json_url url]) with
        | (Raise e, w2) => (Raise e, w2)
        | (Ok st, w2) =>
            match id st with
            | None => (Raise (UnboundLocalError "id"), w2)
            | Some ident =>
                let name := image_name_of E ident in
                match Image_save E name (img st) with
                | Some e => (Raise e, w2)
                | None =>
                    (Ok tt,
                     World (requests w2) (files w2 ++ [(name, img st)])
                           ((displayed w2 ++ [name]) ++ [img_tag name]))
                end
            end
        end
    end.
Proof.
  unfold download_image, get_json, selected.
  unfold bind at 1. unfold bind at 1. unfold http_get at 1.
  fold (tiles_json_url url). fold (logged w [tiles_json_url url]).
  destruct (requests_get E (tiles_json_url url)) as [r|e]; [|reflexivity].
  unfold bind at 1. unfold lift at 1.
  destruct (json_loads E (content r)) as [data|e]; [|reflexivity].
  unfold ret at 1. unfold bind at 1. unfold lift at 1.
  destruct (get_highest_level data) as [lvl|e]; [|reflexivity].
  unfold bind at 1.
  destruct (compose E url lvl (logged w [tiles_json_url url])) as [[st|e] w2];
    [|reflexivity].
  unfold bind at 1. unfold lift at 1.
  destruct (id st) as [ident|]; [|reflexivity].
  fold (image_name_of E ident). fold (img_tag (image_name_of E ident)).
  unfold bind at 1. unfold save at 1. cbv zeta.
  destruct (Image_save E (image_name_of E ident) (img st)) as [e|];
    [reflexivity|].
  reflexivity.
Qed.

(** ** The canvas does not depend on the order of disjoint tiles *)

Lemma fold_place_perm (E : env) (cell : Z * Z) (c : image)
    (ts ts' : list tile) :
  well_formed c ->
  ForallOrdPairs (disjoint_on E cell (fst (size c)) (snd (size c))) ts ->
  Permutation ts ts' ->
  fold_left (place E cell) ts c = fold_left (place E cell) ts' c.
Proof.
  intros Hc Hdis Hperm.
  apply image_ext.
  - now apply fold_place_well_formed.
  - now apply fold_place_well_formed.
  - now rewrite !fold_place_size.
  - intros i j Hb.
    assert (Hbc : in_bounds c i j = true).
    { unfold in_bounds in *. now rewrite fold_place_size in Hb. }
    assert (Hpx : pixel_at (fold_left (place E cell) ts c) i j =
                  pixel_at (fold_left (place E cell) ts' c) i j).
    { destruct (existsb (fun t => covers E cell t i j) ts) eqn:Hex.
      - apply existsb_exists in Hex. destruct Hex as (t & Ht & Hcov).
        assert (Huniq : forall t', In t' ts -> covers E cell t' i j = true ->
                                   tile_pixel E cell t' i j = tile_pixel E cell t i j).
        { intros t' Ht' Hcov'.
          destruct (ForallOrdPairs_In Hdis _ _ Ht Ht') as [->|[Hd|Hd]];
            [reflexivity| |];
            exfalso; apply (Hd i j); try (apply in_bounds_spec in Hbc; tauto);
            auto. }
        transitivity (Some (tile_pixel E cell t i j)).
        + apply fold_covered with (t := t); assumption.
        + symmetry. apply fold_covered with (t := t); try assumption.
          * now apply (Permutation_in _ Hperm).
          * intros t' Ht'. apply Huniq.
            now apply (Permutation_in _ (Permutation_sym Hperm)).
      - assert (Hno : forall t, In t ts -> covers E cell t i j = false).
        { intros t Ht. destruct (covers E cell t i j) eqn:Hc'; [|reflexivity].
          assert (existsb (fun t => covers E cell t i j) ts = true)
            by (apply existsb_exists; eauto).
          congruence. }
        rewrite !fold_untouched; auto.
        intros t Ht. apply Hno.
        now apply (Permutation_in _ (Permutation_sym Hperm)). }
    unfold pixel_at in Hpx. rewrite Hb in Hpx.
    assert (Hb' : in_bounds (fold_left (place E cell) ts' c) i j = true).
    { unfold in_bounds in *. rewrite fold_place_size in *. exact Hb. }
    rewrite Hb' in Hpx. now injection Hpx.
Qed.

(** ** One tile's pixels on the canvas *)

Lemma fold_place_pixel (E : env) (cell : Z * Z) (pre post : list tile)
    (t : tile) (c : image) (i j : Z) :
  well_formed c ->
  in_bounds c i j = true ->
  covers E cell t i j = true ->
  (forall t', In t' post -> covers E cell t' i j = false) ->
  pixel_at (fold_left (place E cell) (pre ++ t :: post) c) i j =
    Some (tile_pixel E cell t i j).
Proof.
  intros Hc Hb Hcov Hno.
  rewrite fold_left_app. cbn [fold_left].
  assert (Hpre : well_formed (fold_left (place E cell) pre c))
    by now apply fold_place_well_formed.
  rewrite fold_untouched; [|now apply paste_well_formed|exact Hno].
  rewrite pixel_at_place by exact Hpre.
  assert (Hb' : in_bounds (fold_left (place E cell) pre c) i j = true).
  { unfold in_bounds in *. now rewrite fold_place_size. }
  now rewrite Hb', Hcov.
Qed.

(** With cells of one size, a tile covers a point of another tile's cell
    only when both sit at the same grid position. *)
Lemma same_cell (c x x' a : Z) :
  0 <= a < c -> x' * c <= x * c + a < x' * c + c -> x' = x.
Proof. intros Ha Hx. nia. Qed.

(** ** Facts about the identifier and its slug *)

Lemma append_assoc (s1 s2 s3 : string) :
  ((s1 ++ s2) ++ s3 = s1 ++ (s2 ++ s3))%string.
Proof. induction s1 as [|a s1 IH]; simpl; [reflexivity|now rewrite IH]. Qed.

Lemma list_ascii_of_append (s1 s2 : string) :
  list_ascii_of_string (s1 ++ s2) =
  list_ascii_of_string s1 ++ list_ascii_of_string s2.
Proof. induction s1 as [|a s1 IH]; simpl; [reflexivity|now rewrite IH]. Qed.

Lemma append_length (s1 s2 : string) :
  String.length (s1 ++ s2) = (String.length s1 + String.length s2)%nat.
Proof. induction s1 as [|a s1 IH]; simpl; [reflexivity|now rewrite IH]. Qed.

(** A pattern that is no prefix of a text at least as long is no prefix of
    any extension of the text. *)
Lemma strip_prefix_app_none (p : string) :
  forall s t,
    (String.length p <= String.length s)%nat ->
    strip_prefix p s = None ->
    strip_prefix p (s ++ t) = None.
Proof.
  induction p as [|a p IH]; intros s t Hlen Hnone; [discriminate|].
  destruct s as [|b s]; simpl in Hlen; [lia|].
  simpl in *. destruct (Ascii.eqb a b); [|reflexivity].
  apply IH; [lia|assumption].
Qed.

Lemma re_search_resource_step (a : ascii) (u : string) :
  re_search_resource (String a u) =
    match strip_prefix "resource/" (String a u) with
    | Some rest => Some (take_line rest)
    | None => re_search_resource u
    end.
Proof. reflexivity. Qed.

Lemma occurs_step (p : string) (a : ascii) (u : string) :
  occurs p (String a u) =
    match strip_prefix p (String a u) with
    | Some _ => true
    | None => occurs p u
    end.
Proof. destruct p; reflexivity. Qed.

Lemma take_line_single (s : string) :
  ~ In newline (list_ascii_of_string s) -> take_line s = s.
Proof.
  induction s as [|a s IH]; intros Hno; simpl; [reflexivity|].
  destruct (Ascii.eqb a newline) eqn:Ha.
  - apply Ascii.eqb_eq in Ha. exfalso. apply Hno. simpl. now left.
  - rewrite IH; [reflexivity|]. intros Hin. apply Hno. simpl. now right.
Qed.

(** The identifier found in [prefix/resource/ident] is [ident], when the
    pattern does not already occur before it. *)
Lemma re_search_resource_found (ident : string) (prefix : string) :
  occurs "resource/" (prefix ++ "/resource") = false ->
  re_search_resource (prefix ++ "/resource/" ++ ident) = Some (take_line ident).
Proof.
  induction prefix as [|a p IH]; intros Hocc; [reflexivity|].
  change (String a p ++ "/resource")%string
    with (String a (p ++ "/resource")) in Hocc.
  rewrite occurs_step in Hocc.
  destruct (strip_prefix "resource/" (String a (p ++ "/resource")))
    eqn:Hsp; [discriminate|].
  change (String a p ++ "/resource/" ++ ident)%string
    with (String a (p ++ "/resource/" ++ ident)).
  rewrite re_search_resource_step.
  assert (Hnone : strip_prefix "resource/" (String a (p ++ "/resource/" ++ ident))
                  = None).
  { change (String a (p ++ "/resource/" ++ ident))
      with (String a p ++ ("/resource" ++ ("/" ++ ident)))%string.
    rewrite <- append_assoc.
    apply strip_prefix_app_none; [|exact Hsp].
    simpl. rewrite append_length. simpl. lia. }
  rewrite Hnone. now apply IH.
Qed.

Lemma not_occurs_not_found (url : string) :
  occurs "resource/" url = false -> re_search_resource url = None.
Proof.
  induction url as [|a u IH]; intros Hocc; [reflexivity|].
  rewrite occurs_step in Hocc. rewrite re_search_resource_step.
  destruct (strip_prefix "resource/" (String a u)); [discriminate|].
  now apply IH.
Qed.

Lemma to_lower_lowered (a : ascii) : lowered (to_lower a).
Proof. destruct a as [[] [] [] [] [] [] [] []]; reflexivity. Qed.

Lemma allowed_lowered_slug (a : ascii) :
  allowed a = true -> lowered a -> slug a.
Proof.
  unfold allowed, lowered, slug, slug_char. intros Ha Hl.
  rewrite Hl in Ha.
  destruct (is_dash a), (is_lower a), (is_digit a); simpl in *; congruence.
Qed.

Lemma drop_digit_commas_Forall (P : ascii -> Prop) (l : list ascii) :
  forall prev, Forall P l -> Forall P (drop_digit_commas prev l).
Proof.
  induction l as [|a l IH]; intros prev Hl; simpl; [constructor|].
  inversion Hl; subst.
  destruct (Ascii.eqb a "," && prev &&
            match l with [] => false | b :: _ => is_digit b end);
    [now apply IH|].
  constructor; [assumption|now apply IH].
Qed.

Lemma sub_runs_slug (l : list ascii) :
  forall in_run,
    Forall lowered l ->
    Forall slug (sub_runs (fun a => negb (allowed a)) in_run l).
Proof.
  induction l as [|a l IH]; intros in_run Hl; simpl; [constructor|].
  inversion Hl; subst.
  destruct (allowed a) eqn:Ha; simpl.
  - constructor; [now apply allowed_lowered_slug|now apply IH].
  - destruct in_run; [now apply IH|].
    constructor; [reflexivity|now apply IH].
Qed.

Lemma collapse_dashes_Forall (P : ascii -> Prop) (l : list ascii) :
  Forall P l -> Forall P (collapse_dashes l).
Proof.
  induction l as [|a l IH]; intros Hl; [constructor|].
  inversion Hl; subst.
  destruct l as [|b l']; [assumption|].
  cbn [collapse_dashes].
  destruct (is_dash a && is_dash b); [now apply IH|].
  constructor; [assumption|now apply IH].
Qed.

Lemma lstrip_dashes_Forall (P : ascii -> Prop) (l : list ascii) :
  Forall P l -> Forall P (lstrip_dashes l).
Proof.
  induction l as [|a l IH]; intros Hl; simpl; [constructor|].
  inversion Hl; subst.
  destruct (is_dash a); [now apply IH|assumption].
Qed.

Lemma slugify_ascii_alphabet (s : string) :
  forallb slug_char (list_ascii_of_string (slugify_ascii s)) = true.
Proof.
  unfold slugify_ascii. rewrite list_ascii_of_string_of_list_ascii.
  apply forallb_forall. apply Forall_forall.
  unfold strip_dashes.
  apply Forall_rev, lstrip_dashes_Forall, Forall_rev, lstrip_dashes_Forall.
  apply collapse_dashes_Forall, sub_runs_slug, drop_digit_commas_Forall.
  apply Forall_forall. intros a Ha.
  apply filter_In in Ha. destruct Ha as [Ha _].
  apply in_map_iff in Ha. destruct Ha as (b & <- & _).
  apply to_lower_lowered.
Qed.

Lemma slugify_ascii_contract : slugify_contract slugify_ascii.
Proof. split; [apply slugify_ascii_alphabet|reflexivity]. Qed.

(** A name built from a slug holds no slash. *)
Lemma image_name_no_slash (E : env) (ident : string) :
  slugify_contract (slugify E) ->
  ~ In "/"%char (list_ascii_of_string (image_name_of E ident)).
Proof.
  intros [Halpha _] Hin. unfold image_name_of in Hin.
  rewrite !list_ascii_of_append in Hin.
  apply in_app_or in Hin. destruct Hin as [Hin|Hin].
  - simpl in Hin. intuition discriminate.
  - apply in_app_or in Hin. destruct Hin as [Hin|Hin].
    + specialize (Halpha ident). rewrite forallb_forall in Halpha.
      apply Halpha in Hin. discriminate.
    + simpl in Hin. intuition discriminate.
Qed.

(** The identifier the loop leaves behind is the one the URL holds. *)
Lemma for_tiles_id (E : env) (url : string) (ts : list tile) :
  forall index st w st' w',
    for_tiles E url index ts st w = (Ok st', w') ->
    id st' = id st \/ id st' = re_search_resource url.
Proof.
  induction ts as [|t rest IH]; intros index st w st' w' Hrun.
  - simpl in Hrun. injection Hrun as <- _. now left.
  - rewrite for_tiles_cons in Hrun.
    destruct (requests_get E (tile_url t)) as [r|e]; [|discriminate].
    destruct (Image_open E (content r)) as [im|e]; [|discriminate].
    destruct (if Nat.eqb index 0 then Some (size im) else tile_wh st)
      as [c|]; [|discriminate].
    destruct (Image_paste (img st) im (tile_x t * fst c, tile_y t * snd c))
      as [img'|e]; [|discriminate].
    destruct (re_search_resource url) as [g|] eqn:Hg; [|discriminate].
    apply IH in Hrun. simpl in Hrun. right.
    destruct Hrun as [H|H]; exact H.
Qed.

Lemma compose_id (E : env) (url : string) (lvl : level) (w w' : world)
    (st : locals) :
  compose E url lvl w = (Ok st, w') ->
  id st = None \/ id st = re_search_resource url.
Proof.
  unfold compose. unfold bind at 1. unfold lift at 1.
  destruct (Image_new E (level_width lvl) (level_height lvl)) as [c|e];
    [|discriminate].
  intros Hrun. apply for_tiles_id in Hrun. exact Hrun.
Qed.

(** ** Levels whose tiles all decode *)

Lemma uniform_all_decode (E : env) (cell : Z * Z) (ts : list tile) :
  uniform E cell ts -> all_decode E ts.
Proof. intros Hu t Ht. destruct (Hu t Ht) as (im & Him & _). eauto. Qed.

Lemma uniform_decoded (E : env) (cell : Z * Z) (ts : list tile) (t : tile) :
  uniform E cell ts -> In t ts -> size (decoded E t) = cell.
Proof.
  intros Hu Ht. destruct (Hu t Ht) as (im & Him & Hs).
  unfold decoded. now rewrite Him.
Qed.

Lemma decoded_ok (E : env) (t : tile) (im : image) :
  tile_image E t = Ok im -> decoded E t = im.
Proof. intros H. unfold decoded. now rewrite H. Qed.

Lemma covers_spec (E : env) (cell : Z * Z) (t : tile) (i j : Z) :
  covers E cell t i j = true <->
  tile_x t * fst cell <= i < tile_x t * fst cell + fst (size (decoded E t)) /\
  tile_y t * snd cell <= j < tile_y t * snd cell + snd (size (decoded E t)).
Proof. unfold covers. rewrite in_box_spec. reflexivity. Qed.

Lemma covers_false (E : env) (cell : Z * Z) (t : tile) (i j : Z) :
  ~ (tile_x t * fst cell <= i < tile_x t * fst cell + fst (size (decoded E t)) /\
     tile_y t * snd cell <= j < tile_y t * snd cell + snd (size (decoded E t))) ->
  covers E cell t i j = false.
Proof.
  intros Hno. destruct (covers E cell t i j) eqn:Hc; [|reflexivity].
  apply covers_spec in Hc. contradiction.
Qed.

(** The loop on a level whose canvas [Image.new] hands out, whose first
    tile decodes to a [cell]-sized raster and whose other tiles decode and
    are accepted by [paste]: every tile is pasted at its grid position
    times [cell]. *)
Lemma compose_fold (E : env) (url g : string) (lvl : level) (cell : Z * Z)
    (w : world) (t0 : tile) (rest : list tile) :
  Image_new E (level_width lvl) (level_height lvl)
    = Ok (blank (level_width lvl) (level_height lvl)) ->
  re_search_resource url = Some g ->
  level_tiles lvl = t0 :: rest ->
  all_decode E (level_tiles lvl) ->
  all_paste E cell (level_tiles lvl) ->
  size (decoded E t0) = cell ->
  compose E url lvl w =
    (Ok (Locals (fold_left (place E cell) (level_tiles lvl)
                           (blank (level_width lvl) (level_height lvl)))
                (Some cell) (Some g)),
     logged w (map tile_url (level_tiles lvl))).
Proof.
  intros Hnew Hg Hts Hall Hfit Hcell.
  rewrite Hts in Hall, Hfit.
  destruct (Hall t0 (or_introl eq_refl)) as [im0 H0].
  rewrite (decoded_ok _ _ H0) in Hcell. subst cell.
  rewrite Hts. apply compose_ok; try assumption.
  intros t Ht. apply Hall. now right.
Qed.

(** ** Tile placement *)

Ltac in_tiles H :=
  simpl in H;
  repeat (destruct H as [H|H]; [subst|]);
  try contradiction.

(** C1: on a level of positive size with at least one tile, all tiles
    decoding to rasters of the size [cell] of the first, [Image.new] handing
    out the canvas and [paste] accepting every tile's box, [compose] succeeds
    and pixel [(a, b)] of a tile at grid [(x, y)] lands on canvas point
    [(x * cell_w + a, y * cell_h + b)] (no later tile sharing the grid
    position); on a 100 x 100 level with 50 x 50 tiles at (0,0), (1,0),
    (0,1), (1,1) every canvas point is covered by exactly one tile and shows
    that tile's pixel, and point (75,75) shows pixel (25,25) of the tile at
    (1,1). *)
Theorem compose_places_tiles (E : env) (url g : string) (lvl : level)
    (cell : Z * Z) (w : world) :
  0 < level_width lvl -> 0 < level_height lvl ->
  Image_new E (level_width lvl) (level_height lvl)
    = Ok (blank (level_width lvl) (level_height lvl)) ->
  level_tiles lvl <> [] ->
  re_search_resource url = Some g ->
  uniform E cell (level_tiles lvl) ->
  all_paste E cell (level_tiles lvl) ->
  exists st w',
    compose E url lvl w = (Ok st, w') /\
    size (img st) = (level_width lvl, level_height lvl) /\
    (forall pre t post im a b,
        level_tiles lvl = pre ++ t :: post ->
        tile_image E t = Ok im ->
        (forall t', In t' post ->
                    (tile_x t', tile_y t') <> (tile_x t, tile_y t)) ->
        0 <= a < fst cell -> 0 <= b < snd cell ->
        0 <= tile_x t * fst cell + a < level_width lvl ->
        0 <= tile_y t * snd cell + b < level_height lvl ->
        pixel_at (img st) (tile_x t * fst cell + a) (tile_y t * snd cell + b)
        = Some (getpixel im a b)) /\
    (forall u00 u10 u01 u11,
        level_width lvl = 100 -> level_height lvl = 100 -> cell = (50, 50) ->
        level_tiles lvl =
          [Tile u00 0 0; Tile u10 1 0; Tile u01 0 1; Tile u11 1 1] ->
        (forall i j, 0 <= i < 100 -> 0 <= j < 100 ->
           exists t,
             In t (level_tiles lvl) /\
             tile_x t = i / 50 /\ tile_y t = j / 50 /\
             covers E cell t i j = true /\
             (forall t', In t' (level_tiles lvl) ->
                         covers E cell t' i j = true -> t' = t) /\
             pixel_at (img st) i j =
               Some (getpixel (decoded E t) (i mod 50) (j mod 50))) /\
        pixel_at (img st) 75 75 =
          Some (getpixel (decoded E (Tile u11 1 1)) 25 25)).
Proof.
  intros Hw Hh Hnew Hne Hg Huni Hfit.
  destruct (level_tiles lvl) as [|t0 rest] eqn:Hts; [contradiction|].
  clear Hne. rewrite <- Hts in Huni, Hfit |- *.
  assert (Hrun := @compose_fold E url g lvl cell w t0 rest
                    Hnew Hg Hts (uniform_all_decode Huni) Hfit).
  rewrite Hrun by (apply (uniform_decoded _ Huni); rewrite Hts; now left).
  clear Hrun.
  set (W := level_width lvl) in *. set (H := level_height lvl) in *.
  assert (Hblank : well_formed (blank W H)) by (apply blank_well_formed; lia).
  assert (Hgen : forall pre t post i j,
             level_tiles lvl = pre ++ t :: post ->
             0 <= i < W -> 0 <= j < H ->
             covers E cell t i j = true ->
             (forall t', In t' post -> covers E cell t' i j = false) ->
             pixel_at (fold_left (place E cell) (level_tiles lvl) (blank W H)) i j
             = Some (tile_pixel E cell t i j)).
  { intros pre t post i j Hsplit Hi Hj Hcov Hpost. rewrite Hsplit.
    apply fold_place_pixel; try assumption.
    apply in_bounds_spec; simpl; lia. }
  eexists. eexists. split; [reflexivity|]. cbn [img].
  split; [now rewrite fold_place_size|].
  split.
  - intros pre t post im a b Hsplit Him Hpost Ha Hb Hx Hy.
    assert (Hin : forall t', In t' (t :: post) -> In t' (level_tiles lvl)).
    { intros t' Ht'. rewrite Hsplit. apply in_or_app. now right. }
    assert (Hst : size (decoded E t) = cell)
      by (apply (uniform_decoded _ Huni), Hin; now left).
    rewrite (Hgen pre t post); try assumption.
    + unfold tile_pixel, offset; simpl. rewrite (decoded_ok _ _ Him).
      do 2 f_equal; lia.
    + apply covers_spec. rewrite Hst. lia.
    + intros t' Ht'. apply covers_false. intros [Hcx Hcy].
      rewrite (uniform_decoded _ Huni (Hin t' (or_intror Ht'))) in Hcx, Hcy.
      apply (Hpost t' Ht').
      rewrite (@same_cell _ _ _ _ Ha Hcx), (@same_cell _ _ _ _ Hb Hcy).
      reflexivity.
  - intros u00 u10 u01 u11 HW HH Hcell H4.
    rewrite H4 in Huni, Hgen |- *. subst cell.
    assert (Hs00 := uniform_decoded (Tile u00 0 0) Huni).
    assert (Hs10 := uniform_decoded (Tile u10 1 0) Huni).
    assert (Hs01 := uniform_decoded (Tile u01 0 1) Huni).
    assert (Hs11 := uniform_decoded (Tile u11 1 1) Huni).
    simpl in Hs00, Hs10, Hs01, Hs11.
    specialize (Hs00 (or_introl eq_refl)).
    specialize (Hs10 (or_intror (or_introl eq_refl))).
    specialize (Hs01 (or_intror (or_intror (or_introl eq_refl)))).
    specialize (Hs11 (or_intror (or_intror (or_intror (or_introl eq_refl))))).
    assert (Hcov : forall t i j,
               In t [Tile u00 0 0; Tile u10 1 0; Tile u01 0 1; Tile u11 1 1] ->
               (covers E (50, 50) t i j = true <->
                tile_x t * 50 <= i < tile_x t * 50 + 50 /\
                tile_y t * 50 <= j < tile_y t * 50 + 50)).
    { intros t i j Ht. rewrite covers_spec.
      in_tiles Ht; simpl;
        rewrite ?Hs00, ?Hs10, ?Hs01, ?Hs11; simpl; reflexivity. }
    assert (Hall : forall i j, 0 <= i < 100 -> 0 <= j < 100 ->
              exists t,
                In t [Tile u00 0 0; Tile u10 1 0; Tile u01 0 1; Tile u11 1 1] /\
                tile_x t = i / 50 /\ tile_y t = j / 50 /\
                covers E (50, 50) t i j = true /\
                (forall t',
                    In t' [Tile u00 0 0; Tile u10 1 0; Tile u01 0 1; Tile u11 1 1] ->
                    covers E (50, 50) t' i j = true -> t' = t) /\
                pixel_at
                  (fold_left (place E (50, 50))
                     [Tile u00 0 0; Tile u10 1 0; Tile u01 0 1; Tile u11 1 1]
                     (blank W H)) i j =
                Some (getpixel (decoded E t) (i mod 50) (j mod 50))).
    { intros i j Hi Hj.
      assert (Hcase : forall pre t post,
                 [Tile u00 0 0; Tile u10 1 0; Tile u01 0 1; Tile u11 1 1]
                 = pre ++ t :: post ->
                 tile_x t * 50 <= i < tile_x t * 50 + 50 ->
                 tile_y t * 50 <= j < tile_y t * 50 + 50 ->
                 (forall t', In t' post ->
                             ~ (tile_x t' = tile_x t /\ tile_y t' = tile_y t)) ->
                 exists t,
                   In t [Tile u00 0 0; Tile u10 1 0; Tile u01 0 1; Tile u11 1 1] /\
                   tile_x t = i / 50 /\ tile_y t = j / 50 /\
                   covers E (50, 50) t i j = true /\
                   (forall t',
                       In t' [Tile u00 0 0; Tile u10 1 0; Tile u01 0 1; Tile u11 1 1] ->
                       covers E (50, 50) t' i j = true -> t' = t) /\
                   pixel_at
                     (fold_left (place E (50, 50))
                        [Tile u00 0 0; Tile u10 1 0; Tile u01 0 1; Tile u11 1 1]
                        (blank W H)) i j =
                   Some (getpixel (decoded E t) (i mod 50) (j mod 50))).
      { intros pre t post Hsplit Hx Hy Hpost.
        assert (Ht : In t [Tile u00 0 0; Tile u10 1 0; Tile u01 0 1; Tile u11 1 1]).
        { rewrite Hsplit. apply in_or_app. right. now left. }
        assert (Htx : tile_x t = i / 50)
          by (apply (Z.div_unique i 50 (tile_x t) (i - tile_x t * 50)); lia).
        assert (Hty : tile_y t = j / 50)
          by (apply (Z.div_unique j 50 (tile_y t) (j - tile_y t * 50)); lia).
        assert (Hmi : i mod 50 = i - tile_x t * 50)
          by (symmetry; apply (Z.mod_unique i 50 (tile_x t)); lia).
        assert (Hmj : j mod 50 = j - tile_y t * 50)
          by (symmetry; apply (Z.mod_unique j 50 (tile_y t)); lia).
        assert (Hsame : forall t',
                   In t' [Tile u00 0 0; Tile u10 1 0; Tile u01 0 1; Tile u11 1 1] ->
                   covers E (50, 50) t' i j = true ->
                   tile_x t' = tile_x t /\ tile_y t' = tile_y t).
        { intros t' Ht' Hc'. apply Hcov in Hc'; [lia|exact Ht']. }
        exists t. repeat split; try assumption.
        - apply Hcov; [exact Ht|lia].
        - intros t' Ht' Hc'. destruct (Hsame t' Ht' Hc') as [Hex Hey].
          clear - Ht Ht' Hex Hey.
          in_tiles Ht; in_tiles Ht'; simpl in *; try reflexivity; discriminate.
        - rewrite (Hgen pre t post i j Hsplit); try lia.
          + unfold tile_pixel, offset; simpl. rewrite Hmi, Hmj. reflexivity.
          + apply Hcov; [exact Ht|lia].
          + intros t' Ht'.
            destruct (covers E (50, 50) t' i j) eqn:Hc'; [|reflexivity].
            exfalso. apply (Hpost t' Ht'). apply Hsame; [|exact Hc'].
            rewrite Hsplit. apply in_or_app. right. now right. }
      destruct (Z_lt_ge_dec i 50), (Z_lt_ge_dec j 50).
      - apply (Hcase [] (Tile u00 0 0)
                 [Tile u10 1 0; Tile u01 0 1; Tile u11 1 1]);
          [reflexivity|simpl; lia|simpl; lia|].
        intros t' Ht'. in_tiles Ht'; simpl; lia.
      - apply (Hcase [Tile u00 0 0; Tile u10 1 0] (Tile u01 0 1)
                 [Tile u11 1 1]);
          [reflexivity|simpl; lia|simpl; lia|].
        intros t' Ht'. in_tiles Ht'; simpl; lia.
      - apply (Hcase [Tile u00 0 0] (Tile u10 1 0)
                 [Tile u01 0 1; Tile u11 1 1]);
          [reflexivity|simpl; lia|simpl; lia|].
        intros t' Ht'. in_tiles Ht'; simpl; lia.
      - apply (Hcase [Tile u00 0 0; Tile u10 1 0; Tile u01 0 1] (Tile u11 1 1)
                 []);
          [reflexivity|simpl; lia|simpl; lia|].
        intros t' Ht'. in_tiles Ht'. }
    split; [exact Hall|].
    destruct (Hall 75 75 ltac:(lia) ltac:(lia))
      as (t & Ht & Htx & Hty & _ & _ & Hpx).
    rewrite Hpx. change (75 / 50) with 1 in Htx, Hty.
    change (75 mod 50) with 25.
    in_tiles Ht; simpl in *; try discriminate. reflexivity.
Qed.

Lemma demo_2x2_uniform : uniform demo_2x2 (50, 50) (level_tiles level_2x2).
Proof.
  intros t Ht. in_tiles Ht; eexists; split; reflexivity.
Qed.

Lemma demo_2x2_pastes : all_paste demo_2x2 (50, 50) (level_tiles level_2x2).
Proof. intros t Ht. in_tiles Ht; reflexivity. Qed.

Lemma compose_places_tiles_witness :
  exists st w',
    compose demo_2x2 photo_url level_2x2 w0 = (Ok st, w') /\
    size (img st) = (100, 100) /\
    pixel_at (img st) 75 75 = Some (25, 25, 4).
Proof.
  destruct (@compose_places_tiles demo_2x2 photo_url "B+43122" level_2x2
              (50, 50) w0)
    as (st & w' & Hrun & Hsize & _ & H4).
  - simpl; lia.
  - simpl; lia.
  - reflexivity.
  - discriminate.
  - reflexivity.
  - exact demo_2x2_uniform.
  - exact demo_2x2_pastes.
  - exists st, w'. split; [exact Hrun|]. split; [exact Hsize|].
    destruct (H4 "t00" "t10" "t01" "t11" eq_refl eq_refl eq_refl eq_refl)
      as [_ Hpx].
    rewrite Hpx. reflexivity.
Defined.

(** ** Level selection *)

Lemma find_z0_none (ls : list level) :
  (forall l, In l ls -> level_name l <> "z0") -> find_z0 ls = None.
Proof.
  induction ls as [|l ls IH]; intros Hno; simpl; [reflexivity|].
  destruct (String.eqb_spec (level_name l) "z0") as [Heq|_].
  - exfalso. apply (Hno l); [now left|exact Heq].
  - apply IH. intros l' Hl'. apply Hno. now right.
Qed.

(** C2: a level named "z0" is what [get_highest_level] returns, whatever
    stands before and after it in the descriptor, that level being the only
    one of that name. *)
Theorem get_highest_level_returns_z0 (pre post : list level) (lvl : level) :
  level_name lvl = "z0" ->
  (forall l, In l (pre ++ lvl :: post) -> level_name l = "z0" -> l = lvl) ->
  get_highest_level (Descriptor (pre ++ lvl :: post)) = Ok lvl.
Proof.
  intros Hz Honly. unfold get_highest_level; simpl.
  induction pre as [|l pre IH]; simpl.
  - now rewrite Hz.
  - destruct (String.eqb_spec (level_name l) "z0") as [Heq|_].
    + rewrite (Honly l); [reflexivity|now left|exact Heq].
    + apply IH. intros l' Hl'. apply Honly. now right.
Qed.

Lemma get_highest_level_returns_z0_witness :
  get_highest_level
    (Descriptor ([Level "z2" 25 25 []; Level "z1" 50 50 []]
                   ++ level_2x2 :: [Level "z3" 12 12 []]))
  = Ok level_2x2.
Proof.
  apply get_highest_level_returns_z0.
  - reflexivity.
  - intros l Hl Hname. simpl in Hl.
    destruct Hl as [<-|[<-|[<-|[<-|[]]]]]; try reflexivity; discriminate.
Defined.

(** C3, counterexample: with no level named "z0" the exception raised is
    not of a class LevelNotFoundError. *)
Lemma get_highest_level_not_LevelNotFoundError :
  ~ (exists e,
        get_highest_level (Descriptor [Level "z1" 50 50 []]) = Raise e /\
        exn_class e = "LevelNotFoundError").
Proof.
  intros (e & Hrun & Hcls). vm_compute in Hrun.
  injection Hrun as <-. discriminate.
Qed.

(** C3, amended: with no level named "z0", [get_highest_level] returns no
    level: reading the unassigned local [highest_zoom] raises
    UnboundLocalError. *)
Theorem get_highest_level_without_z0 (data : descriptor) :
  (forall l, In l (levels data) -> level_name l <> "z0") ->
  get_highest_level data = Raise (UnboundLocalError "highest_zoom").
Proof.
  intros Hno. unfold get_highest_level. now rewrite find_z0_none.
Qed.

Lemma get_highest_level_without_z0_witness :
  get_highest_level
    (Descriptor [Level "z2" 25 25 []; Level "z1" 50 50 []])
  = Raise (UnboundLocalError "highest_zoom").
Proof.
  apply get_highest_level_without_z0.
  intros l Hl. simpl in Hl.
  destruct Hl as [<-|[<-|[]]]; simpl; discriminate.
Defined.

(** ** Failing runs *)



(** C10: on a selected level with no tile, [download_image] raises and
    saves nothing; when [Image.new] hands out the canvas, what it raises is
    UnboundLocalError for [id], assigned only inside the tile loop. *)
Theorem empty_level_saves_nothing (E : env) (url : string) (w : world)
    (lvl : level) :
  selected E url = Ok lvl ->
  level_tiles lvl = [] ->
  exists e w',
    download_image E url w = (Raise e, w') /\
    files w' = files w /\
    (Image_new E (level_width lvl) (level_height lvl)
       = Ok (blank (level_width lvl) (level_height lvl)) ->
     e = UnboundLocalError "id").
Proof.
  intros Hsel Hts.
  rewrite download_image_cases, Hsel.
  destruct (Image_new E (level_width lvl) (level_height lvl)) as [c|e0]
    eqn:Hnew.
  - destruct (Image_new_inv _ _ _ Hnew) as (_ & _ & _ & ->).
    rewrite (@compose_empty E url lvl _ Hnew Hts). simpl.
    eexists. eexists. repeat split.
  - rewrite (@compose_refused E url lvl _ e0 Hnew).
    eexists. eexists. repeat split. discriminate.
Qed.

Lemma empty_level_saves_nothing_witness :
  exists e w',
    download_image (demo_env all_200 [Level "z0" 100 100 []]) photo_url w0
    = (Raise e, w') /\
    files w' = files w0 /\
    (Image_new (demo_env all_200 [Level "z0" 100 100 []]) 100 100
       = Ok (blank 100 100) ->
     e = UnboundLocalError "id").
Proof.
  apply (@empty_level_saves_nothing (demo_env all_200 [Level "z0" 100 100 []])
           photo_url w0 (Level "z0" 100 100 [])); reflexivity.
Defined.

(** ** The identifier is looked for late *)

(** C5, counterexample: for a URL without "resource/" the run requests the
    descriptor and the first tile before it raises, and what it raises is
    AttributeError. *)
Lemma no_identifier_after_two_requests :
  occurs "resource/" "https://host/item/7" = false /\
  download_image demo_2x2 "https://host/item/7" w0 =
    (Raise no_group, World ["https://host/item/7/tiles.json"; "t00"] [] []) /\
  ~ (exists e w',
        download_image demo_2x2 "https://host/item/7" w0 = (Raise e, w') /\
        exn_class e = "IdentifierExtractionError" /\
        requests w' = requests w0).
Proof.
  assert (Hrun : download_image demo_2x2 "https://host/item/7" w0 =
            (Raise no_group,
             World ["https://host/item/7/tiles.json"; "t00"] [] []))
    by (vm_compute; reflexivity).
  split; [reflexivity|]. split; [exact Hrun|].
  intros (e & w' & Hrun' & Hcls & _).
  rewrite Hrun in Hrun'. injection Hrun' as <- _. discriminate.
Qed.

(** C5, amended: for a URL without "resource/", [download_image] raises and
    saves nothing, yet only after the descriptor has been requested; when
    [Image.new] hands out the canvas of the selected level and its first
    tile decodes and is accepted by [paste], that tile has been requested
    too and the exception is the AttributeError of calling [group] on
    [None]. *)
Theorem no_identifier_fails_late (E : env) (url : string) (w : world) :
  occurs "resource/" url = false ->
  exists e w',
    download_image E url w = (Raise e, w') /\
    files w' = files w /\
    (exists rest, requests w' = requests w ++ tiles_json_url url :: rest) /\
    (forall lvl t0 ts im0,
        selected E url = Ok lvl ->
        Image_new E (level_width lvl) (level_height lvl)
          = Ok (blank (level_width lvl) (level_height lvl)) ->
        level_tiles lvl = t0 :: ts ->
        tile_image E t0 = Ok im0 ->
        box_fits (offset (size im0) t0) (size im0) = true ->
        e = no_group /\
        requests w' = requests w ++ [tiles_json_url url; tile_url t0]).
Proof.
  intros Hocc. apply not_occurs_not_found in Hocc.
  rewrite download_image_cases.
  destruct (selected E url) as [lvl|e] eqn:Hsel.
  - destruct (compose_world E url lvl (logged w [tiles_json_url url]))
      as [us Hus].
    assert (Hfirst : forall t0 ts im0,
               Image_new E (level_width lvl) (level_height lvl)
                 = Ok (blank (level_width lvl) (level_height lvl)) ->
               level_tiles lvl = t0 :: ts ->
               tile_image E t0 = Ok im0 ->
               box_fits (offset (size im0) t0) (size im0) = true ->
               compose E url lvl (logged w [tiles_json_url url]) =
                 (Raise no_group,
                  logged (logged w [tiles_json_url url]) [tile_url t0])).
    { intros t0 ts im0 Hnew Hts H0 Hbox.
      now apply compose_no_id with ts im0. }
    destruct (compose E url lvl (logged w [tiles_json_url url]))
      as [[st|e] w2] eqn:Hc; simpl in Hus; subst w2.
    + assert (Hid : id st = None).
      { destruct (compose_id _ _ _ _ Hc) as [Hid|Hid]; [exact Hid|].
        now rewrite Hid. }
      rewrite Hid.
      exists (UnboundLocalError "id"),
             (logged (logged w [tiles_json_url url]) us).
      split; [reflexivity|]. split; [reflexivity|]. split.
      * exists us. simpl. now rewrite <- app_assoc.
      * intros lvl' t0 ts im0 [= <-] Hnew Hts H0 Hbox.
        specialize (Hfirst t0 ts im0 Hnew Hts H0 Hbox). discriminate.
    + exists e, (logged (logged w [tiles_json_url url]) us).
      split; [reflexivity|]. split; [reflexivity|]. split.
      * exists us. simpl. now rewrite <- app_assoc.
      * intros lvl' t0 ts im0 [= <-] Hnew Hts H0 Hbox.
        specialize (Hfirst t0 ts im0 Hnew Hts H0 Hbox).
        injection Hfirst as -> Hw2. split; [reflexivity|].
        simpl. rewrite Hw2. now rewrite <- app_assoc.
  - exists e, (logged w [tiles_json_url url]).
    split; [reflexivity|]. split; [reflexivity|]. split.
    + now exists [].
    + intros lvl t0 ts im0 [=].
Qed.

Lemma no_identifier_fails_late_witness :
  exists e w',
    download_image demo_2x2 "https://host/item/7" w0 = (Raise e, w') /\
    files w' = files w0 /\
    e = no_group /\
    requests w' =
      requests w0 ++ [tiles_json_url "https://host/item/7"; "t00"].
Proof.
  destruct (@no_identifier_fails_late demo_2x2 "https://host/item/7" w0)
    as (e & w' & Hrun & Hfiles & _ & Hlate).
  - reflexivity.
  - exists e, w'. split; [exact Hrun|]. split; [exact Hfiles|].
    apply (Hlate level_2x2 (Tile "t00" 0 0)
             [Tile "t10" 1 0; Tile "t01" 0 1; Tile "t11" 1 1] (ramp 50 50 0));
      reflexivity.
Defined.

(** ** Transport failures and status codes *)

Lemma for_tiles_app (E : env) (url : string) (l1 l2 : list tile) :
  forall index st w,
    for_tiles E url index (l1 ++ l2) st w =
      match for_tiles E url index l1 st w with
      | (Ok st', w') => for_tiles E url (index + length l1) l2 st' w'
      | (Raise e, w') => (Raise e, w')
      end.
Proof.
  induction l1 as [|t l1 IH]; intros index st w.
  - simpl. now rewrite Nat.add_0_r.
  - cbn [app length]. rewrite !for_tiles_cons.
    destruct (requests_get E (tile_url t)) as [r|e]; [|reflexivity].
    destruct (Image_open E (content r)) as [im|e]; [|reflexivity].
    destruct (if Nat.eqb index 0 then Some (size im) else tile_wh st)
      as [c|]; [|reflexivity].
    destruct (Image_paste (img st) im (tile_x t * fst c, tile_y t * snd c))
      as [img'|e]; [|reflexivity].
    destruct (re_search_resource url) as [g|]; [|reflexivity].
    rewrite IH. now rewrite Nat.add_succ_r.
Qed.

(** From its start the loop completes on tiles that all decode and are
    accepted by [paste], for a URL that holds an identifier. *)
Lemma for_tiles_runs (E : env) (url g : string) (ts : list tile) :
  re_search_resource url = Some g ->
  forall st w,
    all_decode E ts ->
    all_paste E (first_cell E ts) ts ->
    exists st',
      for_tiles E url 0 ts st w = (Ok st', logged w (map tile_url ts)).
Proof.
  intros Hg st w Hall Hfit. destruct ts as [|t0 rest].
  - exists st. simpl. now rewrite logged_nil.
  - destruct (Hall t0 (or_introl eq_refl)) as [im0 H0].
    assert (Hd : decoded E t0 = im0) by (unfold decoded; now rewrite H0).
    cbn [first_cell] in Hfit. rewrite Hd in Hfit.
    assert (Hbox := Hfit t0 (or_introl eq_refl)). rewrite Hd in Hbox.
    unfold tile_image in H0.
    destruct (requests_get E (tile_url t0)) as [r|] eqn:Hget; [|discriminate].
    rewrite for_tiles_cons, Hget, H0. cbn [Nat.eqb].
    change (tile_x t0 * fst (size im0), tile_y t0 * snd (size im0))
      with (offset (size im0) t0).
    rewrite (Image_paste_ok _ _ _ Hbox), Hg.
    rewrite for_tiles_ok with (cell := size im0) (g := g);
      [|exact Hg|reflexivity|intros t' Ht'; apply Hall; now right
       |intros t' Ht'; apply Hfit; now right].
    eexists. rewrite logged_logged. reflexivity.
Qed.

(** A tile whose request raises ends the loop there, with that exception. *)
Lemma for_tiles_transport_error (E : env) (url : string) (t : tile)
    (post : list tile) (e : exn) (index : nat) (st : locals) (w : world) :
  requests_get E (tile_url t) = Raise e ->
  for_tiles E url index (t :: post) st w = (Raise e, logged w [tile_url t]).
Proof. intros Hget. now rewrite for_tiles_cons, Hget. Qed.

Lemma for_tiles_status (f : Z -> Z) (E : env) (url : string) (ts : list tile) :
  forall index st w,
    for_tiles (with_status f E) url index ts st w =
    for_tiles E url index ts st w.
Proof.
  induction ts as [|t rest IH]; intros index st w; [reflexivity|].
  rewrite !for_tiles_cons.
  cbn [with_status requests_get Image_open].
  destruct (requests_get E (tile_url t)) as [r|e]; [|reflexivity].
  cbn [content].
  destruct (Image_open E (content r)) as [im|e]; [|reflexivity].
  destruct (if Nat.eqb index 0 then Some (size im) else tile_wh st)
    as [c|]; [|reflexivity].
  destruct (Image_paste (img st) im (tile_x t * fst c, tile_y t * snd c))
    as [img'|e]; [|reflexivity].
  destruct (re_search_resource url) as [g|]; [|reflexivity].
  apply IH.
Qed.

Lemma download_image_status (f : Z -> Z) (E : env) (url : string) (w : world) :
  download_image (with_status f E) url w = download_image E url w.
Proof.
  rewrite !download_image_cases.
  assert (Hsel : selected (with_status f E) url = selected E url).
  { unfold selected. cbn [with_status requests_get json_loads].
    now destruct (requests_get E (tiles_json_url url)). }
  rewrite Hsel. destruct (selected E url) as [lvl|e]; [|reflexivity].
  assert (Hc : forall w1, compose (with_status f E) url lvl w1
                          = compose E url lvl w1).
  { intros w1. unfold compose. unfold bind at 1 2. unfold lift at 1 2.
    change (Image_new (with_status f E) (level_width lvl) (level_height lvl))
      with (Image_new E (level_width lvl) (level_height lvl)).
    destruct (Image_new E (level_width lvl) (level_height lvl));
      [|reflexivity].
    apply for_tiles_status. }
  rewrite Hc. reflexivity.
Qed.

(** C6, counterexample: a tile answered with status 404 is no fetch error;
    its body is decoded and pasted, and the image is saved. *)
Lemma not_found_body_is_pasted :
  requests_get (demo_env tile_11_is_404 [level_2x2]) "t11"
    = Ok (Response 404 "t11") /\
  (exists w' c,
      download_image (demo_env tile_11_is_404 [level_2x2]) photo_url w0
        = (Ok tt, w') /\
      files w' = [("slsa-b-43122.jpg", c)] /\
      pixel_at c 75 75 = Some (getpixel (ramp 50 50 4) 25 25)) /\
  ~ (exists e w',
        download_image (demo_env tile_11_is_404 [level_2x2]) photo_url w0
        = (Raise e, w')).
Proof.
  set (E := demo_env tile_11_is_404 [level_2x2]).
  assert (Hrun : download_image E photo_url w0 =
            (Ok tt,
             World ("https://host/resource/B+43122/tiles.json"
                      :: map tile_url (level_tiles level_2x2))
                   [("slsa-b-43122.jpg",
                     fold_left (place E (50, 50)) (level_tiles level_2x2)
                               (blank 100 100))]
                   ["slsa-b-43122.jpg"; img_tag "slsa-b-43122.jpg"]))
    by (vm_compute; reflexivity).
  split; [reflexivity|]. split.
  - eexists. eexists. split; [exact Hrun|]. split; [reflexivity|].
    vm_compute. reflexivity.
  - intros (e & w' & Hrun'). rewrite Hrun in Hrun'. discriminate.
Qed.

(** C6, amended: a tile whose request raises in the transport ends the run
    with that very exception, once the canvas has been handed out and the
    tiles before it have been fetched, decoded and pasted: no later tile is
    requested and nothing is saved.  Status codes play no part: the run is
    the same whatever status the responses carry. *)
Theorem transport_error_aborts (E : env) (url : string) (lvl : level)
    (w : world) (pre post : list tile) (t : tile) (e : exn) :
  selected E url = Ok lvl ->
  Image_new E (level_width lvl) (level_height lvl)
    = Ok (blank (level_width lvl) (level_height lvl)) ->
  (pre <> [] -> re_search_resource url <> None) ->
  level_tiles lvl = pre ++ t :: post ->
  all_decode E pre ->
  all_paste E (first_cell E pre) pre ->
  requests_get E (tile_url t) = Raise e ->
  download_image E url w =
    (Raise e,
     logged w (tiles_json_url url :: map tile_url pre ++ [tile_url t])) /\
  (forall f, download_image (with_status f E) url w = download_image E url w).
Proof.
  intros Hsel Hnew Hid Hts Hpre Hfit Hget.
  split; [|intros f; apply download_image_status].
  rewrite download_image_cases, Hsel.
  unfold compose. rewrite Hnew, Hts.
  unfold bind at 1. unfold lift at 1.
  rewrite for_tiles_app.
  assert (Hrun : exists st',
             for_tiles E url 0 pre
               (Locals (blank (level_width lvl) (level_height lvl)) None None)
               (logged w [tiles_json_url url]) =
             (Ok st', logged (logged w [tiles_json_url url]) (map tile_url pre))).
  { destruct pre as [|p pre].
    - eexists. simpl. now rewrite logged_nil.
    - destruct (re_search_resource url) as [g|] eqn:Hg;
        [|exfalso; apply Hid; [discriminate|reflexivity]].
      now apply for_tiles_runs with g. }
  destruct Hrun as [st' Hst'].
  rewrite Hst'. rewrite for_tiles_transport_error with (e := e) by exact Hget.
  rewrite !logged_logged. reflexivity.
Qed.

Lemma transport_error_aborts_witness :
  download_image (offline "t01" demo_2x2) photo_url w0 =
    (Raise (LibError "ConnectionError" "connection refused"),
     logged w0 (tiles_json_url photo_url
                  :: map tile_url [Tile "t00" 0 0; Tile "t10" 1 0] ++ ["t01"])).
Proof.
  apply (@transport_error_aborts (offline "t01" demo_2x2) photo_url
           level_2x2 w0 [Tile "t00" 0 0; Tile "t10" 1 0] [Tile "t11" 1 1]
           (Tile "t01" 0 1)
           (LibError "ConnectionError" "connection refused")).
  - reflexivity.
  - reflexivity.
  - intros _. discriminate.
  - reflexivity.
  - intros t Ht. in_tiles Ht; eexists; reflexivity.
  - intros t Ht. in_tiles Ht; reflexivity.
  - reflexivity.
Defined.

(** ** Clipping at the canvas edge *)

(** With cells of one size, the tiles after [t] that sit elsewhere on the
    grid leave the points of [t]'s cell alone. *)
Lemma uniform_post_clear (E : env) (cell : Z * Z) (ts pre post : list tile)
    (t : tile) (a b : Z) :
  uniform E cell ts ->
  ts = pre ++ t :: post ->
  (forall t', In t' post -> (tile_x t', tile_y t') <> (tile_x t, tile_y t)) ->
  0 <= a < fst cell -> 0 <= b < snd cell ->
  forall t', In t' post ->
    covers E cell t' (tile_x t * fst cell + a) (tile_y t * snd cell + b) = false.
Proof.
  intros Huni Hsplit Hpost Ha Hb t' Ht'.
  apply covers_false. intros [Hcx Hcy].
  assert (Hin : In t' ts).
  { rewrite Hsplit. apply in_or_app. right. now right. }
  rewrite (uniform_decoded _ Huni Hin) in Hcx, Hcy.
  apply (Hpost t' Ht').
  rewrite (@same_cell _ _ _ _ Ha Hcx), (@same_cell _ _ _ _ Hb Hcy).
  reflexivity.
Qed.

(** C7: wherever on the grid the tiles sit, as long as [Image.new] hands
    out the canvas and the corners of their boxes fit the C ints [paste]
    converts them to, [compose] raises nothing and the
    canvas keeps its declared size; a pixel of a tile whose target lies
    outside the canvas is not in the output, one whose target lies inside is
    there (unless a later tile covers it).  On a 120 x 100 canvas with
    50 x 50 tiles, a tile in grid column 2 shows its columns 0 to 19, from
    canvas column 100 on, and nothing of its columns 20 to 49. *)
Theorem paste_clips_to_canvas (E : env) (url g : string) (lvl : level)
    (w : world) (t0 : tile) (rest : list tile) :
  Image_new E (level_width lvl) (level_height lvl)
    = Ok (blank (level_width lvl) (level_height lvl)) ->
  re_search_resource url = Some g ->
  level_tiles lvl = t0 :: rest ->
  all_decode E (level_tiles lvl) ->
  all_paste E (size (decoded E t0)) (level_tiles lvl) ->
  exists st w',
    compose E url lvl w = (Ok st, w') /\
    size (img st) = (level_width lvl, level_height lvl) /\
    well_formed (img st) /\
    (forall pre t post a b,
        level_tiles lvl = pre ++ t :: post ->
        0 <= a < fst (size (decoded E t)) ->
        0 <= b < snd (size (decoded E t)) ->
        (forall t', In t' post ->
           covers E (size (decoded E t0)) t'
             (tile_x t * fst (size (decoded E t0)) + a)
             (tile_y t * snd (size (decoded E t0)) + b) = false) ->
        pixel_at (img st)
          (tile_x t * fst (size (decoded E t0)) + a)
          (tile_y t * snd (size (decoded E t0)) + b) =
        if in_bounds (img st)
             (tile_x t * fst (size (decoded E t0)) + a)
             (tile_y t * snd (size (decoded E t0)) + b)
        then Some (getpixel (decoded E t) a b)
        else None) /\
    (level_width lvl = 120 -> level_height lvl = 100 ->
     uniform E (50, 50) (level_tiles lvl) ->
     forall pre t post a b,
       level_tiles lvl = pre ++ t :: post ->
       tile_x t = 2 -> 0 <= tile_y t <= 1 ->
       (forall t', In t' post ->
                   (tile_x t', tile_y t') <> (tile_x t, tile_y t)) ->
       0 <= a < 50 -> 0 <= b < 50 ->
       pixel_at (img st) (100 + a) (tile_y t * 50 + b) =
         if a <? 20 then Some (getpixel (decoded E t) a b) else None).
Proof.
  intros Hnew Hg Hts Hall Hfit.
  destruct (Image_new_nonneg _ _ _ Hnew) as [Hw Hh].
  rewrite (@compose_fold E url g lvl (size (decoded E t0)) w t0 rest
             Hnew Hg Hts Hall Hfit eq_refl).
  set (cell := size (decoded E t0)).
  set (W := level_width lvl) in *. set (H := level_height lvl) in *.
  set (canvas := fold_left (place E cell) (level_tiles lvl) (blank W H)).
  assert (Hblank : well_formed (blank W H)) by now apply blank_well_formed.
  assert (Hsize : size canvas = (W, H))
    by (unfold canvas; now rewrite fold_place_size).
  assert (Hgen : forall pre t post a b,
             level_tiles lvl = pre ++ t :: post ->
             0 <= a < fst (size (decoded E t)) ->
             0 <= b < snd (size (decoded E t)) ->
             (forall t', In t' post ->
                covers E cell t' (tile_x t * fst cell + a)
                       (tile_y t * snd cell + b) = false) ->
             pixel_at canvas (tile_x t * fst cell + a) (tile_y t * snd cell + b) =
             if in_bounds canvas (tile_x t * fst cell + a) (tile_y t * snd cell + b)
             then Some (getpixel (decoded E t) a b)
             else None).
  { intros pre t post a b Hsplit Ha Hb Hpost.
    destruct (in_bounds canvas (tile_x t * fst cell + a)
                (tile_y t * snd cell + b)) eqn:Hin.
    - unfold canvas. rewrite Hsplit.
      rewrite fold_place_pixel; try assumption.
      + unfold tile_pixel, offset; simpl. do 2 f_equal; lia.
      + unfold in_bounds in *. rewrite Hsize in Hin. exact Hin.
      + apply covers_spec. lia.
    - unfold pixel_at. now rewrite Hin. }
  eexists. eexists. split; [reflexivity|]. cbn [img]. fold canvas.
  split; [exact Hsize|].
  split; [now apply fold_place_well_formed|].
  split; [exact Hgen|].
  intros HW HH Huni pre t post a b Hsplit Htx Hty Hpost Ha Hb.
  assert (Hcell : cell = (50, 50)).
  { apply (uniform_decoded _ Huni). rewrite Hts. now left. }
  assert (Ht : size (decoded E t) = (50, 50)).
  { apply (uniform_decoded _ Huni). rewrite Hsplit.
    apply in_or_app. right. now left. }
  specialize (Hgen pre t post a b Hsplit).
  rewrite Ht, Hcell, Htx in Hgen. cbn [fst snd] in Hgen.
  change (2 * 50) with 100 in Hgen.
  rewrite Hgen; try assumption.
  - unfold in_bounds. rewrite Hsize, HW, HH. cbn [fst snd].
    destruct (a <? 20) eqn:Ha20.
    + apply Z.ltb_lt in Ha20.
      replace (0 <=? 100 + a) with true by (symmetry; apply Z.leb_le; lia).
      replace (100 + a <? 120) with true by (symmetry; apply Z.ltb_lt; lia).
      replace (0 <=? tile_y t * 50 + b) with true
        by (symmetry; apply Z.leb_le; lia).
      replace (tile_y t * 50 + b <? 100) with true
        by (symmetry; apply Z.ltb_lt; lia).
      reflexivity.
    + apply Z.ltb_ge in Ha20.
      replace (100 + a <? 120) with false by (symmetry; apply Z.ltb_ge; lia).
      now rewrite andb_false_r.
  - intros t' Ht'.
    assert (Hclear := @uniform_post_clear E (50, 50) (level_tiles lvl) pre post
                        t a b Huni Hsplit Hpost Ha Hb t' Ht').
    rewrite Htx in Hclear. exact Hclear.
Qed.

Lemma demo_3x2_uniform : uniform demo_3x2 (50, 50) (level_tiles level_3x2).
Proof.
  intros t Ht. in_tiles Ht; eexists; split; reflexivity.
Qed.

Lemma paste_clips_to_canvas_witness :
  exists st w',
    compose demo_3x2 photo_url level_3x2 w0 = (Ok st, w') /\
    size (img st) = (120, 100) /\
    pixel_at (img st) 119 0 = Some (19, 0, 2) /\
    pixel_at (img st) 120 0 = None.
Proof.
  destruct (@paste_clips_to_canvas demo_3x2 photo_url "B+43122" level_3x2 w0
              (Tile "t00" 0 0)
              [Tile "t10" 1 0; Tile "t20" 2 0;
               Tile "t01" 0 1; Tile "t11" 1 1; Tile "t21" 2 1])
    as (st & w' & Hrun & Hsize & _ & _ & Hedge).
  - reflexivity.
  - reflexivity.
  - reflexivity.
  - exact (uniform_all_decode demo_3x2_uniform).
  - intros t Ht. in_tiles Ht; reflexivity.
  - exists st, w'. split; [exact Hrun|]. split; [exact Hsize|].
    assert (Hcol : forall a, 0 <= a < 50 ->
               pixel_at (img st) (100 + a) 0 =
               if a <? 20
               then Some (getpixel (decoded demo_3x2 (Tile "t20" 2 0)) a 0)
               else None).
    { intros a Ha.
      apply (Hedge eq_refl eq_refl demo_3x2_uniform
               [Tile "t00" 0 0; Tile "t10" 1 0] (Tile "t20" 2 0)
               [Tile "t01" 0 1; Tile "t11" 1 1; Tile "t21" 2 1] a 0);
        try reflexivity; simpl; try lia.
      intros t' Ht'. in_tiles Ht'; simpl; intros [=]. }
    split.
    + change 119 with (100 + 19). rewrite (Hcol 19) by lia. reflexivity.
    + change 120 with (100 + 20). rewrite (Hcol 20) by lia. reflexivity.
Defined.

(** ** Order of the tiles *)

(** C8: on a level whose tiles all decode to rasters of one size, are
    accepted by [paste] and cover pairwise disjoint parts of the canvas,
    [compose] gives the same canvas for every order of the tiles (and does
    give a canvas, when [Image.new] hands one out and the URL holds an
    identifier). *)
Theorem compose_order_irrelevant (E : env) (url : string) (lvl : level)
    (ts' : list tile) (cell : Z * Z) (w w' : world) :
  uniform E cell (level_tiles lvl) ->
  all_paste E cell (level_tiles lvl) ->
  ForallOrdPairs (disjoint_on E cell (level_width lvl) (level_height lvl))
                 (level_tiles lvl) ->
  Permutation (level_tiles lvl) ts' ->
  composed E url lvl w = composed E url (with_tiles lvl ts') w' /\
  (Image_new E (level_width lvl) (level_height lvl)
     = Ok (blank (level_width lvl) (level_height lvl)) ->
   re_search_resource url <> None ->
   exists c, composed E url lvl w = Ok c).
Proof.
  intros Huni Hfit Hdis Hperm. unfold composed.
  destruct (Image_new E (level_width lvl) (level_height lvl)) as [c|e0]
    eqn:Hnew.
  - destruct (Image_new_inv _ _ _ Hnew) as (Hw & Hh & _ & ->).
    destruct (level_tiles lvl) as [|t0 rest] eqn:Hts.
    + apply Permutation_nil in Hperm. subst ts'.
      rewrite (@compose_empty E url lvl w Hnew Hts).
      rewrite (@compose_empty E url (with_tiles lvl []) w' Hnew eq_refl).
      split; [reflexivity|]. intros _ _. simpl. eauto.
    + destruct ts' as [|t0' rest'].
      { apply Permutation_sym, Permutation_nil in Hperm. discriminate. }
      assert (Huni' : uniform E cell (t0' :: rest')).
      { intros t Ht. apply Huni.
        now apply (Permutation_in _ (Permutation_sym Hperm)). }
      assert (Hfit' : all_paste E cell (t0' :: rest')).
      { intros t Ht. apply Hfit.
        now apply (Permutation_in _ (Permutation_sym Hperm)). }
      destruct (Huni t0 (or_introl eq_refl)) as (im0 & H0 & Hs0).
      destruct (Huni' t0' (or_introl eq_refl)) as (im0' & H0' & Hs0').
      destruct (re_search_resource url) as [g|] eqn:Hg.
      * rewrite (@compose_fold E url g lvl cell w t0 rest Hnew Hg Hts);
          [|rewrite Hts; exact (uniform_all_decode Huni)
           |rewrite Hts; exact Hfit
           |now rewrite (decoded_ok _ _ H0)].
        rewrite (@compose_fold E url g (with_tiles lvl (t0' :: rest')) cell w'
                   t0' rest' Hnew Hg eq_refl);
          [|exact (uniform_all_decode Huni')
           |exact Hfit'
           |now rewrite (decoded_ok _ _ H0')].
        cbn [fst img with_tiles level_tiles level_width level_height].
        rewrite Hts.
        rewrite (@fold_place_perm E cell
                   (blank (level_width lvl) (level_height lvl))
                   (t0 :: rest) (t0' :: rest'));
          [| apply blank_well_formed; lia | exact Hdis | exact Hperm].
        split; [reflexivity|]. eauto.
      * assert (Hb0 := Hfit t0 (or_introl eq_refl)).
        assert (Hb0' := Hfit' t0' (or_introl eq_refl)).
        rewrite (decoded_ok _ _ H0), <- Hs0 in Hb0.
        rewrite (decoded_ok _ _ H0'), <- Hs0' in Hb0'.
        rewrite (@compose_no_id E url lvl w t0 rest im0 Hnew Hg Hts H0 Hb0).
        rewrite (@compose_no_id E url (with_tiles lvl (t0' :: rest')) w'
                   t0' rest' im0' Hnew Hg eq_refl H0' Hb0').
        split; [reflexivity|]. intros _ Hne. contradiction.
  - rewrite (@compose_refused E url lvl w e0 Hnew).
    rewrite (@compose_refused E url (with_tiles lvl ts') w' e0 Hnew).
    split; [reflexivity|]. discriminate.
Qed.

(** Tiles of one positive size at pairwise different grid positions cover
    pairwise disjoint parts of any canvas. *)
Lemma uniform_disjoint (E : env) (cell : Z * Z) (W H : Z) (ts : list tile) :
  uniform E cell ts ->
  0 < fst cell -> 0 < snd cell ->
  ForallOrdPairs
    (fun t1 t2 => (tile_x t1, tile_y t1) <> (tile_x t2, tile_y t2)) ts ->
  ForallOrdPairs (disjoint_on E cell W H) ts.
Proof.
  intros Huni Hcw Hch Hgrid.
  assert (Hsz : forall t, In t ts -> size (decoded E t) = cell)
    by (intros t Ht; now apply (uniform_decoded _ Huni)).
  clear Huni. induction Hgrid as [|a l Ha Hl IH]; constructor.
  - apply Forall_forall. intros x Hx.
    rewrite Forall_forall in Ha. specialize (Ha x Hx).
    intros i j _ _ [H1 H2]. apply covers_spec in H1, H2.
    rewrite (Hsz a) in H1 by now left.
    rewrite (Hsz x) in H2 by now right.
    apply Ha. f_equal; nia.
  - apply IH. intros t Ht. apply Hsz. now right.
Qed.

Lemma demo_2x2_disjoint :
  ForallOrdPairs (disjoint_on demo_2x2 (50, 50) 100 100) (level_tiles level_2x2).
Proof.
  apply uniform_disjoint; [exact demo_2x2_uniform|simpl; lia|simpl; lia|].
  simpl. repeat constructor; intros [=].
Qed.

Lemma compose_order_irrelevant_witness :
  composed demo_2x2 photo_url level_2x2 w0 =
  composed demo_2x2 photo_url
    (with_tiles level_2x2
       [Tile "t10" 1 0; Tile "t00" 0 0; Tile "t01" 0 1; Tile "t11" 1 1]) w0.
Proof.
  apply (@compose_order_irrelevant demo_2x2 photo_url level_2x2
           [Tile "t10" 1 0; Tile "t00" 0 0; Tile "t01" 0 1; Tile "t11" 1 1]
           (50, 50) w0 w0).
  - exact demo_2x2_uniform.
  - exact demo_2x2_pastes.
  - exact demo_2x2_disjoint.
  - apply perm_swap.
Defined.

(** ** The name of the output file *)

(** C9: for a URL [prefix/resource/ident] (the pattern not occurring
    earlier, the identifier on one line) and a [slugify] that behaves as
    the library does, [download_image] writes at most one file, and writes
    it when it succeeds; its name is "slsa-", the slug of the identifier
    and ".jpg", with no slash in it.  For https://host/resource/B+43122 the
    name is slsa-b-43122.jpg. *)
Theorem output_name_from_identifier (E : env) (prefix ident : string)
    (w : world) :
  slugify_contract (slugify E) ->
  occurs "resource/" (prefix ++ "/resource") = false ->
  ~ In newline (list_ascii_of_string ident) ->
  let url := (prefix ++ "/resource/" ++ ident)%string in
  let name := ("slsa-" ++ slugify E ident ++ ".jpg")%string in
  (exists r w',
      download_image E url w = (r, w') /\
      (files w' = files w \/ exists c, files w' = files w ++ [(name, c)]) /\
      (r = Ok tt -> exists c, files w' = files w ++ [(name, c)])) /\
  ~ In "/"%char (list_ascii_of_string name) /\
  (prefix = "https://host" -> ident = "B+43122" -> name = "slsa-b-43122.jpg").
Proof.
  intros Hslug Hocc Hline url name.
  assert (Hg : re_search_resource url = Some ident).
  { unfold url. rewrite re_search_resource_found by exact Hocc.
    now rewrite take_line_single. }
  split; [|split].
  - rewrite download_image_cases.
    destruct (selected E url) as [lvl|e].
    + destruct (compose_world E url lvl (logged w [tiles_json_url url]))
        as [us Hus].
      destruct (compose E url lvl (logged w [tiles_json_url url]))
        as [[st|e] w2] eqn:Hc; simpl in Hus; subst w2.
      * destruct (compose_id _ _ _ _ Hc) as [Hid|Hid]; rewrite Hid.
        -- eexists. eexists. split; [reflexivity|].
           split; [now left|discriminate].
        -- rewrite Hg. cbv zeta. fold name.
           change (image_name_of E ident) with name.
           destruct (Image_save E name (img st)) as [e|].
           ++ eexists. eexists. split; [reflexivity|].
              split; [now left|discriminate].
           ++ eexists. eexists. split; [reflexivity|].
              split; [right|intros _]; exists (img st); reflexivity.
      * eexists. eexists. split; [reflexivity|].
        split; [now left|discriminate].
    + eexists. eexists. split; [reflexivity|].
      split; [now left|discriminate].
  - apply (@image_name_no_slash E ident Hslug).
  - intros -> ->. unfold name.
    rewrite (slug_plain Hslug) by reflexivity. reflexivity.
Qed.

Lemma output_name_from_identifier_witness :
  (exists r w',
      download_image demo_2x2 photo_url w0 = (r, w') /\
      (files w' = files w0 \/
       exists c, files w' = files w0 ++ [("slsa-b-43122.jpg", c)]) /\
      (r = Ok tt -> exists c, files w' = files w0 ++ [("slsa-b-43122.jpg", c)])) /\
  ~ In "/"%char (list_ascii_of_string "slsa-b-43122.jpg") /\
  fst (download_image demo_2x2 photo_url w0) = Ok tt.
Proof.
  destruct (@output_name_from_identifier demo_2x2 "https://host" "B+43122" w0)
    as (Hrun & Hslash & _).
  - exact slugify_ascii_contract.
  - reflexivity.
  - simpl. intuition discriminate.
  - split; [exact Hrun|]. split; [exact Hslash|].
    vm_compute. reflexivity.
Defined.


(** ** The descriptor request *)

Lemma append_nil_r (s : string) : (s ++ "")%string = s.
Proof. induction s as [|a s IH]; simpl; [reflexivity|now rewrite IH]. Qed.

Lemma rstrip_slash_snoc (s : string) :
  rstrip_slash (s ++ "/") = rstrip_slash s.
Proof.
  induction s as [|a s IH]; [reflexivity|].
  cbn [append rstrip_slash]. now rewrite IH.
Qed.

Lemma rstrip_slash_slashes (n : nat) :
  forall s, rstrip_slash (s ++ slashes n) = rstrip_slash s.
Proof.
  induction n as [|n IH]; intros s; cbn [slashes].
  - now rewrite append_nil_r.
  - change (String "/" (slashes n)) with ("/" ++ slashes n)%string.
    rewrite <- append_assoc, IH. apply rstrip_slash_snoc.
Qed.

Lemma rstrip_slash_no_trailing (s : string) :
  ends_with_slash (rstrip_slash s) = false.
Proof.
  induction s as [|a s IH]; [reflexivity|].
  cbn [rstrip_slash].
  destruct (rstrip_slash s) as [|b r].
  - destruct (Ascii.eqb a "/") eqn:Ha; [reflexivity|]. simpl. exact Ha.
  - exact IH.
Qed.

Lemma rstrip_slash_decompose (s : string) :
  exists k, s = (rstrip_slash s ++ slashes k)%string.
Proof.
  induction s as [|a s [k IH]]; [now exists 0%nat|].
  cbn [rstrip_slash].
  destruct (rstrip_slash s) as [|b r].
  - simpl in IH. destruct (Ascii.eqb_spec a "/") as [->|_].
    + exists (S k). simpl. now rewrite <- IH.
    + exists k. simpl. now rewrite <- IH.
  - exists k. simpl. simpl in IH. now rewrite <- IH.
Qed.

(** X1: slashes at the end of the URL do not change what [get_json] does:
    the same descriptor URL is requested and the same result returned. *)
Theorem get_json_trailing_slashes (E : env) (url : string) (n : nat)
    (w : world) :
  get_json E (url ++ slashes n) w = get_json E url w.
Proof. unfold get_json. now rewrite rstrip_slash_slashes. Qed.

(** X2: [get_json] issues one request, to the URL without its trailing
    slashes followed by "/tiles.json", and returns the parsed body, or
    raises what the transport or the parser raised. *)
Theorem get_json_requests (E : env) (url : string) (w : world) :
  exists base k,
    url = (base ++ slashes k)%string /\
    ends_with_slash base = false /\
    get_json E url w =
      (match requests_get E (base ++ "/tiles.json") with
       | Ok r => json_loads E (content r)
       | Raise e => Raise e
       end,
       logged w [(base ++ "/tiles.json")%string]).
Proof.
  destruct (rstrip_slash_decompose url) as [k Hk].
  exists (rstrip_slash url), k.
  split; [exact Hk|]. split; [apply rstrip_slash_no_trailing|].
  unfold get_json, bind, http_get, lift, ret, logged. cbv beta iota.
  change ("/" ++ "tiles.json")%string with "/tiles.json".
  destruct (requests_get E (rstrip_slash url ++ "/tiles.json")) as [r|e];
    [|reflexivity].
  now destruct (json_loads E (content r)).
Qed.

(** ** The level found *)

Lemma find_z0_first (pre post : list level) (lvl : level) :
  (forall l, In l pre -> level_name l <> "z0") ->
  level_name lvl = "z0" ->
  find_z0 (pre ++ lvl :: post) = Some lvl.
Proof.
  intros Hpre Hz. induction pre as [|l pre IH]; simpl.
  - now rewrite Hz.
  - destruct (String.eqb_spec (level_name l) "z0") as [Heq|_].
    + exfalso. apply (Hpre l); [now left|exact Heq].
    + apply IH. intros l' Hl'. apply Hpre. now right.
Qed.

Lemma find_z0_inv (ls : list level) (lvl : level) :
  find_z0 ls = Some lvl ->
  exists pre post,
    ls = pre ++ lvl :: post /\ level_name lvl = "z0" /\
    (forall l, In l pre -> level_name l <> "z0").
Proof.
  induction ls as [|a ls IH]; intros Hfind; [discriminate|].
  simpl in Hfind.
  destruct (String.eqb_spec (level_name a) "z0") as [Heq|Hne].
  - injection Hfind as <-. exists [], ls. repeat split; [exact Heq|].
    intros l [].
  - destruct (IH Hfind) as (pre & post & -> & Hz & Hpre).
    exists (a :: pre), post. repeat split; [exact Hz|].
    intros l [<-|Hl]; [exact Hne|now apply Hpre].
Qed.

(** X3: [get_highest_level] returns a level exactly when that level is the
    first one named "z0" in the descriptor: levels after it, named "z0" or
    not, are never looked at. *)
Theorem get_highest_level_first_match (data : descriptor) (lvl : level) :
  get_highest_level data = Ok lvl <->
  exists pre post,
    levels data = pre ++ lvl :: post /\ level_name lvl = "z0" /\
    (forall l, In l pre -> level_name l <> "z0").
Proof.
  unfold get_highest_level. split.
  - destruct (find_z0 (levels data)) as [l|] eqn:Hfind; [|discriminate].
    intros [= <-]. now apply find_z0_inv.
  - intros (pre & post & -> & Hz & Hpre). now rewrite find_z0_first.
Qed.

(** ** The identifier in the URL *)

Lemma strip_prefix_some (p : string) :
  forall s r, strip_prefix p s = Some r -> s = (p ++ r)%string.
Proof.
  induction p as [|a p IH]; intros s r Hs; simpl in Hs.
  - now injection Hs as <-.
  - destruct s as [|b s]; [discriminate|].
    destruct (Ascii.eqb_spec a b) as [->|_]; [|discriminate].
    simpl. f_equal. now apply IH.
Qed.

Lemma strip_prefix_app_some (p : string) :
  forall s r t,
    strip_prefix p s = Some r -> strip_prefix p (s ++ t) = Some (r ++ t)%string.
Proof.
  induction p as [|a p IH]; intros s r t Hs; simpl in Hs.
  - now injection Hs as <-.
  - destruct s as [|b s]; [discriminate|]. simpl.
    destruct (Ascii.eqb a b); [|discriminate]. now apply IH.
Qed.

Lemma re_search_resource_leftmost (rest : string) (prefix : string) :
  occurs "resource/" (prefix ++ "resource") = false ->
  re_search_resource (prefix ++ "resource/" ++ rest) = Some (take_line rest).
Proof.
  induction prefix as [|a p IH]; intros Hocc; [reflexivity|].
  change (String a p ++ "resource")%string
    with (String a (p ++ "resource")) in Hocc.
  rewrite occurs_step in Hocc.
  destruct (strip_prefix "resource/" (String a (p ++ "resource")))
    eqn:Hsp; [discriminate|].
  change (String a p ++ "resource/" ++ rest)%string
    with (String a (p ++ "resource/" ++ rest)).
  rewrite re_search_resource_step.
  assert (Hnone : strip_prefix "resource/" (String a (p ++ "resource/" ++ rest))
                  = None).
  { change (String a (p ++ "resource/" ++ rest))
      with (String a p ++ ("resource" ++ ("/" ++ rest)))%string.
    rewrite <- append_assoc.
    apply strip_prefix_app_none; [|exact Hsp].
    simpl. rewrite append_length. simpl. lia. }
  rewrite Hnone. now apply IH.
Qed.

Lemma re_search_resource_inv (url : string) :
  forall g,
    re_search_resource url = Some g ->
    exists prefix rest,
      url = (prefix ++ "resource/" ++ rest)%string /\
      occurs "resource/" (prefix ++ "resource") = false /\
      g = take_line rest.
Proof.
  induction url as [|a u IH]; intros g Hg; [discriminate|].
  rewrite re_search_resource_step in Hg.
  destruct (strip_prefix "resource/" (String a u)) as [r|] eqn:Hsp.
  - injection Hg as <-. exists EmptyString, r.
    split; [exact (@strip_prefix_some _ _ _ Hsp)|]. split; reflexivity.
  - destruct (IH g Hg) as (p & rest & -> & Hocc & ->).
    exists (String a p), rest. split; [reflexivity|]. split; [|reflexivity].
    change (String a p ++ "resource")%string with (String a (p ++ "resource")).
    rewrite occurs_step.
    destruct (strip_prefix "resource/" (String a (p ++ "resource")))
      as [r'|] eqn:Hsp'; [|exact Hocc].
    apply strip_prefix_app_some with (t := ("/" ++ rest)%string) in Hsp'.
    change (String a (p ++ "resource") ++ "/" ++ rest)%string
      with (String a ((p ++ "resource") ++ "/" ++ rest)) in Hsp'.
    rewrite append_assoc in Hsp'.
    change ("resource" ++ "/" ++ rest)%string with ("resource/" ++ rest)%string
      in Hsp'.
    congruence.
Qed.

Lemma found_occurs (url : string) :
  re_search_resource url = None -> occurs "resource/" url = false.
Proof.
  induction url as [|a u IH]; intros Hnone; [reflexivity|].
  rewrite re_search_resource_step in Hnone. rewrite occurs_step.
  destruct (strip_prefix "resource/" (String a u)); [discriminate|].
  now apply IH.
Qed.

Lemma take_line_no_newline (s : string) :
  ~ In newline (list_ascii_of_string (take_line s)).
Proof.
  induction s as [|a s IH]; simpl; [tauto|].
  destruct (Ascii.eqb_spec a newline) as [_|Hne]; simpl; [tauto|].
  intros [Heq|Hin]; [now apply Hne|now apply IH].
Qed.

(** X4: the search for the identifier finds nothing exactly when
    "resource/" does not occur in the URL; otherwise it yields what follows
    the leftmost "resource/" up to the end of the line, slashes, query
    strings and all, and never a line break. *)
Theorem re_search_resource_spec (url : string) :
  (re_search_resource url = None <-> occurs "resource/" url = false) /\
  (forall g,
      re_search_resource url = Some g <->
      exists prefix rest,
        url = (prefix ++ "resource/" ++ rest)%string /\
        occurs "resource/" (prefix ++ "resource") = false /\
        g = take_line rest) /\
  (forall g, re_search_resource url = Some g ->
             ~ In newline (list_ascii_of_string g)).
Proof.
  split; [|split].
  - split; [apply found_occurs|apply not_occurs_not_found].
  - intros g. split; [apply re_search_resource_inv|].
    intros (p & rest & -> & Hocc & ->). now apply re_search_resource_leftmost.
  - intros g Hg.
    destruct (re_search_resource_inv _ Hg) as (p & rest & _ & _ & ->).
    apply take_line_no_newline.
Qed.

(** ** Runs that succeed *)

Lemma for_tiles_ok_inv_next (E : env) (url : string) (cell : Z * Z)
    (ts : list tile) :
  forall n st w st' w',
    tile_wh st = Some cell ->
    for_tiles E url (S n) ts st w = (Ok st', w') ->
    all_decode E ts /\ all_paste E cell ts /\
    (ts <> [] -> re_search_resource url <> None).
Proof.
  induction ts as [|t rest IH]; intros n st w st' w' Hwh Hrun.
  - repeat split; [intros t []|intros t []|intros Hne; now contradiction Hne].
  - rewrite for_tiles_cons in Hrun. cbn [Nat.eqb] in Hrun. rewrite Hwh in Hrun.
    destruct (requests_get E (tile_url t)) as [r|e] eqn:Hget; [|discriminate].
    destruct (Image_open E (content r)) as [im|e] eqn:Hopen; [|discriminate].
    destruct (Image_paste (img st) im (tile_x t * fst cell, tile_y t * snd cell))
      as [img'|e] eqn:Hpaste; [|discriminate].
    destruct (re_search_resource url) as [g|] eqn:Hg; [|discriminate].
    apply IH in Hrun; [|reflexivity]. destruct Hrun as (Hall & Hfit & _).
    assert (Him : tile_image E t = Ok im)
      by (unfold tile_image; now rewrite Hget).
    apply Image_paste_inv in Hpaste. destruct Hpaste as [Hbox _].
    repeat split; [| |discriminate].
    + intros t' [<-|Hin]; [eauto|now apply Hall].
    + intros t' [<-|Hin]; [|now apply Hfit].
      now rewrite (decoded_ok _ _ Him).
Qed.

Lemma for_tiles_ok_inv (E : env) (url : string) (ts : list tile) :
  forall st w st' w',
    for_tiles E url 0 ts st w = (Ok st', w') ->
    all_decode E ts /\ all_paste E (first_cell E ts) ts /\
    (ts <> [] -> re_search_resource url <> None).
Proof.
  destruct ts as [|t rest]; intros st w st' w' Hrun.
  - repeat split; [intros t []|intros t []|intros Hne; now contradiction Hne].
  - rewrite for_tiles_cons in Hrun. cbn [Nat.eqb] in Hrun.
    destruct (requests_get E (tile_url t)) as [r|e] eqn:Hget; [|discriminate].
    destruct (Image_open E (content r)) as [im|e] eqn:Hopen; [|discriminate].
    destruct (Image_paste (img st) im
                (tile_x t * fst (size im), tile_y t * snd (size im)))
      as [img'|e] eqn:Hpaste; [|discriminate].
    destruct (re_search_resource url) as [g|] eqn:Hg; [|discriminate].
    apply for_tiles_ok_inv_next with (cell := size im) in Hrun; [|reflexivity].
    destruct Hrun as (Hall & Hfit & _).
    assert (Him : tile_image E t = Ok im)
      by (unfold tile_image; now rewrite Hget).
    apply Image_paste_inv in Hpaste. destruct Hpaste as [Hbox _].
    cbn [first_cell]. rewrite (decoded_ok _ _ Him).
    repeat split; [| |discriminate].
    + intros t' [<-|Hin]; [eauto|now apply Hall].
    + intros t' [<-|Hin]; [|now apply Hfit].
      now rewrite (decoded_ok _ _ Him).
Qed.

Lemma compose_ok_inv (E : env) (url : string) (lvl : level) (w w' : world)
    (st : locals) :
  compose E url lvl w = (Ok st, w') ->
  Image_new E (level_width lvl) (level_height lvl)
    = Ok (blank (level_width lvl) (level_height lvl)) /\
  all_decode E (level_tiles lvl) /\
  all_paste E (first_cell E (level_tiles lvl)) (level_tiles lvl) /\
  (level_tiles lvl <> [] -> re_search_resource url <> None).
Proof.
  intros Hrun. unfold compose in Hrun.
  unfold bind at 1 in Hrun. unfold lift at 1 in Hrun.
  destruct (Image_new E (level_width lvl) (level_height lvl)) as [c|e]
    eqn:Hnew; [|discriminate].
  destruct (Image_new_inv _ _ _ Hnew) as (_ & _ & _ & ->).
  apply for_tiles_ok_inv in Hrun. tauto.
Qed.

Lemma stitched_cons (E : env) (lvl : level) (t0 : tile) (rest : list tile) :
  level_tiles lvl = t0 :: rest ->
  stitched E lvl =
    fold_left (place E (size (decoded E t0))) (level_tiles lvl)
              (blank (level_width lvl) (level_height lvl)).
Proof. intros Hts. unfold stitched. now rewrite Hts. Qed.

(** X5: [download_image] succeeds exactly when the descriptor is fetched
    and parsed and has a level named "z0" with at least one tile,
    [Image.new] hands out its canvas, every tile is fetched, decoded and
    accepted by [paste], the URL holds "resource/" and the encoder accepts
    the canvas.  It has then requested the descriptor and every tile once,
    in the descriptor's order, written one file, the stitched canvas under
    the name built from the identifier, and displayed the link and the
    image tag. *)
Theorem download_image_succeeds_iff (E : env) (url : string) (w w' : world) :
  download_image E url w = (Ok tt, w') <->
  exists lvl g,
    selected E url = Ok lvl /\
    Image_new E (level_width lvl) (level_height lvl)
      = Ok (blank (level_width lvl) (level_height lvl)) /\
    level_tiles lvl <> [] /\
    all_decode E (level_tiles lvl) /\
    all_paste E (first_cell E (level_tiles lvl)) (level_tiles lvl) /\
    re_search_resource url = Some g /\
    Image_save E (image_name_of E g) (stitched E lvl) = None /\
    w' = World (requests w ++ tiles_json_url url
                  :: map tile_url (level_tiles lvl))
               (files w ++ [(image_name_of E g, stitched E lvl)])
               (displayed w
                  ++ [image_name_of E g; img_tag (image_name_of E g)]).
Proof.
  rewrite download_image_cases. split.
  - destruct (selected E url) as [lvl|e]; [|discriminate].
    destruct (compose E url lvl (logged w [tiles_json_url url]))
      as [[st|e] w2] eqn:Hc; [|discriminate].
    destruct (id st) as [ident|] eqn:Hid; [|discriminate].
    cbv zeta.
    destruct (Image_save E (image_name_of E ident) (img st)) as [e|] eqn:Hsave;
      [discriminate|].
    intros [= <-].
    destruct (compose_ok_inv _ _ _ _ Hc) as (Hnew & Hall & Hfit & Hne).
    destruct (level_tiles lvl) as [|t0 rest] eqn:Hts.
    { rewrite (@compose_empty E url lvl _ Hnew Hts) in Hc.
      injection Hc as <- _. discriminate. }
    destruct (re_search_resource url) as [g|] eqn:Hg;
      [|exfalso; now apply Hne].
    rewrite <- Hts in Hall. cbn [first_cell] in Hfit. rewrite <- Hts in Hfit.
    rewrite (@compose_fold E url g lvl (size (decoded E t0))
               (logged w [tiles_json_url url]) t0 rest Hnew Hg Hts Hall Hfit
               eq_refl)
      in Hc.
    injection Hc as <- <-. cbn [img id] in *. injection Hid as <-.
    exists lvl, g. rewrite (stitched_cons E lvl Hts).
    split; [reflexivity|]. split; [exact Hnew|].
    split; [rewrite Hts; discriminate|]. split; [exact Hall|].
    split; [rewrite Hts at 1; exact Hfit|].
    split; [reflexivity|]. split; [exact Hsave|].
    cbn [logged requests files displayed].
    now rewrite <- !app_assoc.
  - intros (lvl & g & -> & Hnew & Hne & Hall & Hfit & Hg & Hsave & ->).
    destruct (level_tiles lvl) as [|t0 rest] eqn:Hts; [contradiction|].
    rewrite <- Hts in Hall. cbn [first_cell] in Hfit. rewrite <- Hts in Hfit.
    rewrite (@compose_fold E url g lvl (size (decoded E t0))
               (logged w [tiles_json_url url]) t0 rest Hnew Hg Hts Hall Hfit
               eq_refl).
    cbn [id img]. cbv zeta.
    rewrite (stitched_cons E lvl Hts) in Hsave. rewrite Hsave.
    rewrite (stitched_cons E lvl Hts), Hts.
    cbn [logged requests files displayed].
    now rewrite <- !app_assoc.
Qed.

Lemma download_image_succeeds_iff_witness :
  exists c,
    download_image demo_2x2 photo_url w0 =
      (Ok tt,
       World ["https://host/resource/B+43122/tiles.json";
              "t00"; "t10"; "t01"; "t11"]
             [("slsa-b-43122.jpg", c)]
             ["slsa-b-43122.jpg"; img_tag "slsa-b-43122.jpg"]) /\
    pixel_at c 75 75 = Some (25, 25, 4).
Proof.
  exists (stitched demo_2x2 level_2x2). split; [|reflexivity].
  apply (proj2 (download_image_succeeds_iff demo_2x2 photo_url w0 _)).
  exists level_2x2, "B+43122".
  split; [reflexivity|]. split; [reflexivity|]. split; [discriminate|].
  split; [exact (uniform_all_decode demo_2x2_uniform)|].
  split; [exact demo_2x2_pastes|].
  repeat split.
Defined.

(** ** Runs that fail *)

(** X6: a run that raises has written no file and displayed nothing,
    whatever raised and however many tiles were already pasted. *)
Theorem failure_leaves_no_output (E : env) (url : string) (w w' : world)
    (e : exn) :
  download_image E url w = (Raise e, w') ->
  files w' = files w /\ displayed w' = displayed w.
Proof.
  rewrite download_image_cases.
  destruct (selected E url) as [lvl|e0].
  - destruct (compose_world E url lvl (logged w [tiles_json_url url]))
      as [us Hus].
    destruct (compose E url lvl (logged w [tiles_json_url url]))
      as [[st|e0] w2]; simpl in Hus; subst w2.
    + destruct (id st) as [ident|]; cbv zeta.
      * destruct (Image_save E (image_name_of E ident) (img st));
          [|discriminate].
        intros [= _ <-]. split; reflexivity.
      * intros [= _ <-]. split; reflexivity.
    + intros [= _ <-]. split; reflexivity.
  - intros [= _ <-]. split; reflexivity.
Qed.

Lemma failure_leaves_no_output_witness :
  download_image (demo_env all_200 [level_broken]) photo_url w0 =
    (Raise (LibError "UnidentifiedImageError" "cannot identify image file"),
     World ["https://host/resource/B+43122/tiles.json"; "t00"; "t10"; "oops"]
           [] []) /\
  files (World ["https://host/resource/B+43122/tiles.json"; "t00"; "t10"; "oops"]
               [] []) = files w0.
Proof.
  assert (Hrun : download_image (demo_env all_200 [level_broken]) photo_url w0 =
            (Raise (LibError "UnidentifiedImageError"
                             "cannot identify image file"),
             World ["https://host/resource/B+43122/tiles.json";
                    "t00"; "t10"; "oops"] [] []))
    by (vm_compute; reflexivity).
  split; [exact Hrun|].
  exact (proj1 (failure_leaves_no_output _ _ _ Hrun)).
Defined.

(** The requests of the tile loop: the first [k] tiles, all of them when the
    loop completes. *)
Lemma for_tiles_requests (E : env) (url : string) (ts : list tile) :
  forall index st w,
    exists k,
      snd (for_tiles E url index ts st w) = logged w (map tile_url (firstn k ts)) /\
      (forall st', fst (for_tiles E url index ts st w) = Ok st' ->
                   k = length ts).
Proof.
  induction ts as [|t rest IH]; intros index st w.
  - exists 0%nat. simpl. rewrite logged_nil. auto.
  - rewrite for_tiles_cons.
    assert (Hstop : forall e : exn,
               exists k,
                 snd (@Raise locals e, logged w [tile_url t]) =
                   logged w (map tile_url (firstn k (t :: rest))) /\
                 (forall st', fst (@Raise locals e, logged w [tile_url t]) = Ok st' ->
                              k = length (t :: rest))).
    { intros e. exists 1%nat. split; [reflexivity|]. discriminate. }
    destruct (requests_get E (tile_url t)) as [r|e]; [|apply Hstop].
    destruct (Image_open E (content r)) as [im|e]; [|apply Hstop].
    destruct (if Nat.eqb index 0 then Some (size im) else tile_wh st)
      as [c|]; [|apply Hstop].
    destruct (Image_paste (img st) im (tile_x t * fst c, tile_y t * snd c))
      as [img'|e]; [|apply Hstop].
    destruct (re_search_resource url) as [g|]; [|apply Hstop].
    match goal with
    | |- context [for_tiles E url ?n rest ?s ?w'] =>
        destruct (IH n s w') as (k & Hk & Hfull)
    end.
    exists (S k). rewrite Hk, logged_logged. split; [reflexivity|].
    intros st' Hok. simpl. f_equal. now apply (Hfull st').
Qed.

(** X7: whatever happens, [download_image] requests the descriptor first
    and then tiles of the selected level only, each once, in the
    descriptor's order and without skipping any: the first [k] of them, and
    all of them when the run succeeds.  Nothing is requested after a
    descriptor that cannot be fetched, parsed or searched. *)
Theorem download_image_requests (E : env) (url : string) (w : world) :
  exists us,
    requests (snd (download_image E url w)) =
      requests w ++ tiles_json_url url :: us /\
    (forall e, selected E url = Raise e -> us = []) /\
    (forall lvl, selected E url = Ok lvl ->
       exists k,
         us = map tile_url (firstn k (level_tiles lvl)) /\
         (fst (download_image E url w) = Ok tt ->
          k = length (level_tiles lvl))).
Proof.
  rewrite download_image_cases.
  destruct (selected E url) as [lvl|e].
  - assert (Hc : exists k,
               snd (compose E url lvl (logged w [tiles_json_url url])) =
                 logged (logged w [tiles_json_url url])
                        (map tile_url (firstn k (level_tiles lvl))) /\
               (forall st,
                   fst (compose E url lvl (logged w [tiles_json_url url])) = Ok st ->
                   k = length (level_tiles lvl))).
    { unfold compose. unfold bind at 1 2. unfold lift at 1 2.
      destruct (Image_new E (level_width lvl) (level_height lvl)) as [c|e].
      - apply for_tiles_requests.
      - exists 0%nat. simpl. rewrite logged_nil. split; [reflexivity|].
        discriminate. }
    destruct Hc as (k & Hk & Hfull).
    exists (map tile_url (firstn k (level_tiles lvl))).
    destruct (compose E url lvl (logged w [tiles_json_url url]))
      as [[st|e] w2]; simpl in Hk; subst w2.
    + assert (Hreq : requests
                       (logged (logged w [tiles_json_url url])
                          (map tile_url (firstn k (level_tiles lvl)))) =
                     requests w ++ tiles_json_url url
                       :: map tile_url (firstn k (level_tiles lvl)))
        by (simpl; now rewrite <- app_assoc).
      split.
      * destruct (id st) as [ident|]; cbv zeta; [|exact Hreq].
        destruct (Image_save E (image_name_of E ident) (img st)); exact Hreq.
      * split; [discriminate|].
        intros lvl' [= <-]. exists k. split; [reflexivity|].
        intros _. now apply (Hfull st).
    + split; [simpl; now rewrite <- app_assoc|].
      split; [discriminate|].
      intros lvl' [= <-]. exists k. split; [reflexivity|].
      simpl. discriminate.
  - exists []. split; [reflexivity|]. split; [reflexivity|]. discriminate.
Qed.

(** A tile that cannot be fetched or decoded ends the loop there. *)
Lemma for_tiles_tile_error (E : env) (url : string) (t : tile)
    (post : list tile) (e : exn) (index : nat) (st : locals) (w : world) :
  tile_image E t = Raise e ->
  for_tiles E url index (t :: post) st w = (Raise e, logged w [tile_url t]).
Proof.
  intros Hbad. unfold tile_image in Hbad. rewrite for_tiles_cons.
  destruct (requests_get E (tile_url t)) as [r|e0].
  - now rewrite Hbad.
  - now injection Hbad as ->.
Qed.

(** X8: the first tile that cannot be fetched or decoded decides the run,
    once the canvas has been handed out and the tiles before it have been
    pasted: what its request or its decoding raised is what
    [download_image] raises, the tiles before it have been requested and it
    last, and no tile after it is requested. *)
Theorem first_bad_tile_decides (E : env) (url : string) (lvl : level)
    (w : world) (pre post : list tile) (t : tile) (e : exn) :
  selected E url = Ok lvl ->
  Image_new E (level_width lvl) (level_height lvl)
    = Ok (blank (level_width lvl) (level_height lvl)) ->
  (pre <> [] -> re_search_resource url <> None) ->
  level_tiles lvl = pre ++ t :: post ->
  all_decode E pre ->
  all_paste E (first_cell E pre) pre ->
  tile_image E t = Raise e ->
  download_image E url w =
    (Raise e,
     logged w (tiles_json_url url :: map tile_url pre ++ [tile_url t])).
Proof.
  intros Hsel Hnew Hid Hts Hpre Hfit Hbad.
  rewrite download_image_cases, Hsel.
  unfold compose. rewrite Hnew, Hts.
  unfold bind at 1. unfold lift at 1.
  rewrite for_tiles_app.
  assert (Hrun : exists st',
             for_tiles E url 0 pre
               (Locals (blank (level_width lvl) (level_height lvl)) None None)
               (logged w [tiles_json_url url]) =
             (Ok st', logged (logged w [tiles_json_url url]) (map tile_url pre))).
  { destruct pre as [|p pre].
    - eexists. simpl. now rewrite logged_nil.
    - destruct (re_search_resource url) as [g|] eqn:Hg;
        [|exfalso; apply Hid; [discriminate|reflexivity]].
      now apply for_tiles_runs with g. }
  destruct Hrun as [st' Hst'].
  rewrite Hst'. rewrite for_tiles_tile_error with (e := e) by exact Hbad.
  rewrite !logged_logged. reflexivity.
Qed.

Lemma first_bad_tile_decides_witness :
  download_image (demo_env all_200 [level_broken]) photo_url w0 =
    (Raise (LibError "UnidentifiedImageError" "cannot identify image file"),
     logged w0 (tiles_json_url photo_url
                  :: map tile_url [Tile "t00" 0 0; Tile "t10" 1 0] ++ ["oops"])).
Proof.
  apply (@first_bad_tile_decides (demo_env all_200 [level_broken]) photo_url
           level_broken w0 [Tile "t00" 0 0; Tile "t10" 1 0] [Tile "t11" 1 1]
           (Tile "oops" 0 1)).
  - reflexivity.
  - reflexivity.
  - intros _. discriminate.
  - reflexivity.
  - intros t Ht. in_tiles Ht; eexists; reflexivity.
  - intros t Ht. in_tiles Ht; reflexivity.
  - reflexivity.
Defined.

(** X9: a level of negative width or height stops the run at [Image.new],
    with ValueError: the descriptor has been requested, no tile has. *)
Theorem negative_size_requests_no_tile (E : env) (url : string) (w : world)
    (lvl : level) :
  selected E url = Ok lvl ->
  level_width lvl < 0 \/ level_height lvl < 0 ->
  download_image E url w =
    (Raise (ValueError "Width and height must be >= 0"),
     logged w [tiles_json_url url]).
Proof.
  intros Hsel Hneg.
  rewrite download_image_cases, Hsel.
  now rewrite compose_negative.
Qed.

Lemma negative_size_requests_no_tile_witness :
  download_image (demo_env all_200 [Level "z0" (-5) 100 [Tile "t00" 0 0]])
                 photo_url w0 =
    (Raise (ValueError "Width and height must be >= 0"),
     logged w0 [tiles_json_url photo_url]).
Proof.
  apply (@negative_size_requests_no_tile
           (demo_env all_200 [Level "z0" (-5) 100 [Tile "t00" 0 0]])
           photo_url w0 (Level "z0" (-5) 100 [Tile "t00" 0 0])).
  - reflexivity.
  - left. simpl. lia.
Defined.

(** X11: a descriptor that cannot be had stops the run after its one
    request: what the transport raised, else what the parser raised, else
    UnboundLocalError when no level is named "z0". *)
Theorem descriptor_failure_stops_early (E : env) (url : string) (w : world) :
  (forall e,
      requests_get E (tiles_json_url url) = Raise e ->
      download_image E url w = (Raise e, logged w [tiles_json_url url])) /\
  (forall r e,
      requests_get E (tiles_json_url url) = Ok r ->
      json_loads E (content r) = Raise e ->
      download_image E url w = (Raise e, logged w [tiles_json_url url])) /\
  (forall r data,
      requests_get E (tiles_json_url url) = Ok r ->
      json_loads E (content r) = Ok data ->
      (forall l, In l (levels data) -> level_name l <> "z0") ->
      download_image E url w =
        (Raise (UnboundLocalError "highest_zoom"),
         logged w [tiles_json_url url])).
Proof.
  repeat split.
  - intros e Hget. rewrite download_image_cases. unfold selected.
    now rewrite Hget.
  - intros r e Hget Hparse. rewrite download_image_cases. unfold selected.
    now rewrite Hget, Hparse.
  - intros r data Hget Hparse Hno. rewrite download_image_cases.
    unfold selected, get_highest_level.
    now rewrite Hget, Hparse, (find_z0_none _ Hno).
Qed.

Lemma descriptor_failure_stops_early_witness :
  download_image (demo_env all_200 [Level "z1" 50 50 [Tile "t00" 0 0]])
                 photo_url w0 =
    (Raise (UnboundLocalError "highest_zoom"),
     logged w0 [tiles_json_url photo_url]).
Proof.
  apply (proj2 (proj2 (descriptor_failure_stops_early
                         (demo_env all_200 [Level "z1" 50 50 [Tile "t00" 0 0]])
                         photo_url w0))
           (Response 200 (tiles_json_url photo_url))
           (Descriptor [Level "z1" 50 50 [Tile "t00" 0 0]])).
  - reflexivity.
  - reflexivity.
  - intros l [<-|[]]. discriminate.
Defined.

(** ** What the tiles leave uncovered *)

Lemma getpixel_blank (w h i j : Z) : getpixel (blank w h) i j = black.
Proof.
  unfold getpixel, blank; simpl.
  set (rows := repeat (repeat black (Z.to_nat w)) (Z.to_nat h)).
  destruct (Nat.lt_ge_cases (Z.to_nat j) (length rows)) as [Hj|Hj].
  - assert (Hr : nth (Z.to_nat j) rows [] = repeat black (Z.to_nat w)).
    { apply (repeat_spec (Z.to_nat h)). apply nth_In. exact Hj. }
    rewrite Hr.
    destruct (Nat.lt_ge_cases (Z.to_nat i) (length (repeat black (Z.to_nat w))))
      as [Hi|Hi].
    + apply (repeat_spec (Z.to_nat w)). apply nth_In. exact Hi.
    + now apply nth_overflow.
  - rewrite (nth_overflow rows [] Hj). now destruct (Z.to_nat i).
Qed.

(** X10: when [Image.new] hands out the canvas and every tile is fetched,
    decoded and accepted by [paste], a point of the canvas that no tile's
    rectangle contains is black in the composed image: the canvas starts
    black and the loop writes nowhere else. *)
Theorem uncovered_points_stay_black (E : env) (url g : string) (lvl : level)
    (w : world) (t0 : tile) (rest : list tile) (i j : Z) :
  Image_new E (level_width lvl) (level_height lvl)
    = Ok (blank (level_width lvl) (level_height lvl)) ->
  re_search_resource url = Some g ->
  level_tiles lvl = t0 :: rest ->
  all_decode E (level_tiles lvl) ->
  all_paste E (size (decoded E t0)) (level_tiles lvl) ->
  0 <= i < level_width lvl -> 0 <= j < level_height lvl ->
  (forall t, In t (level_tiles lvl) ->
             covers E (size (decoded E t0)) t i j = false) ->
  exists st w',
    compose E url lvl w = (Ok st, w') /\
    pixel_at (img st) i j = Some black.
Proof.
  intros Hnew Hg Hts Hall Hfit Hi Hj Hno.
  destruct (Image_new_nonneg _ _ _ Hnew) as [Hw Hh].
  rewrite (@compose_fold E url g lvl (size (decoded E t0)) w t0 rest
             Hnew Hg Hts Hall Hfit eq_refl).
  eexists. eexists. split; [reflexivity|]. cbn [img].
  rewrite fold_untouched; [|now apply blank_well_formed|exact Hno].
  unfold pixel_at.
  replace (in_bounds (blank (level_width lvl) (level_height lvl)) i j)
    with true by (symmetry; apply in_bounds_spec; simpl; lia).
  now rewrite getpixel_blank.
Qed.

Lemma uncovered_points_stay_black_witness :
  exists st w',
    compose demo_gap photo_url level_gap w0 = (Ok st, w') /\
    pixel_at (img st) 110 10 = Some black.
Proof.
  apply (@uncovered_points_stay_black demo_gap photo_url "B+43122" level_gap w0
           (Tile "t00" 0 0) [Tile "t10" 1 0; Tile "t01" 0 1; Tile "t11" 1 1]).
  - reflexivity.
  - reflexivity.
  - reflexivity.
  - intros t Ht. in_tiles Ht; eexists; reflexivity.
  - intros t Ht. in_tiles Ht; reflexivity.
  - simpl; lia.
  - simpl; lia.
  - intros t Ht. in_tiles Ht; reflexivity.
Defined.

(** ** Tiles that miss the canvas *)

Lemma place_outside (E : env) (cell : Z * Z) (c : image) (t : tile) :
  well_formed c ->
  (forall i j, in_bounds c i j = true -> covers E cell t i j = false) ->
  place E cell c t = c.
Proof.
  intros Hc Hout. apply image_ext.
  - now apply paste_well_formed.
  - exact Hc.
  - reflexivity.
  - intros i j Hb. unfold place.
    change (in_bounds (paste c (decoded E t) (offset cell t)) i j)
      with (in_bounds c i j) in Hb.
    rewrite getpixel_paste by assumption.
    specialize (Hout i j Hb). unfold covers in Hout. now rewrite Hout.
Qed.

(** X12: a tile whose rectangle lies wholly off the canvas, its corners
    still fitting C ints, is fetched and pasted without error and leaves no
    trace: the composed canvas is the one the level gives without that
    tile, as long as it is not the first tile, whose size sets the cell. *)
Theorem stray_tile_leaves_no_trace (E : env) (url g : string) (lvl : level)
    (p0 t : tile) (pre post : list tile) (w w' : world) :
  Image_new E (level_width lvl) (level_height lvl)
    = Ok (blank (level_width lvl) (level_height lvl)) ->
  re_search_resource url = Some g ->
  level_tiles lvl = (p0 :: pre) ++ t :: post ->
  all_decode E (level_tiles lvl) ->
  all_paste E (size (decoded E p0)) (level_tiles lvl) ->
  (forall i j, 0 <= i < level_width lvl -> 0 <= j < level_height lvl ->
               covers E (size (decoded E p0)) t i j = false) ->
  (exists c, composed E url lvl w = Ok c) /\
  composed E url lvl w =
  composed E url (with_tiles lvl ((p0 :: pre) ++ post)) w'.
Proof.
  intros Hnew Hg Hts Hall Hfit Hout. unfold composed.
  destruct (Image_new_nonneg _ _ _ Hnew) as [Hw Hh].
  assert (Hsub : forall t',
             In t' (level_tiles (with_tiles lvl ((p0 :: pre) ++ post))) ->
             In t' (level_tiles lvl)).
  { intros t' Ht'. rewrite Hts. simpl in Ht'. simpl.
    destruct Ht' as [Ht'|Ht']; [now left|right].
    apply in_app_or in Ht'. apply in_or_app.
    destruct Ht' as [Ht'|Ht']; [now left|right; now right]. }
  assert (Hall' : all_decode E (level_tiles (with_tiles lvl ((p0 :: pre) ++ post))))
    by (intros t' Ht'; now apply Hall, Hsub).
  assert (Hfit' : all_paste E (size (decoded E p0))
                    (level_tiles (with_tiles lvl ((p0 :: pre) ++ post))))
    by (intros t' Ht'; now apply Hfit, Hsub).
  rewrite (@compose_fold E url g lvl (size (decoded E p0)) w p0
             (pre ++ t :: post) Hnew Hg Hts Hall Hfit eq_refl).
  rewrite (@compose_fold E url g (with_tiles lvl ((p0 :: pre) ++ post))
             (size (decoded E p0)) w' p0 (pre ++ post) Hnew Hg eq_refl
             Hall' Hfit' eq_refl).
  cbn [fst img with_tiles level_tiles level_width level_height].
  split; [eauto|]. f_equal.
  rewrite Hts, !fold_left_app. cbn [fold_left]. f_equal.
  apply place_outside.
  - apply fold_place_well_formed. unfold place.
    apply paste_well_formed. now apply blank_well_formed.
  - intros i j Hb. apply in_bounds_spec in Hb.
    rewrite fold_place_size in Hb. unfold place in Hb.
    rewrite paste_size in Hb. simpl in Hb. apply Hout; lia.
Qed.

Lemma stray_tile_leaves_no_trace_witness :
  composed demo_2x2 photo_url
    (with_tiles level_2x2
       ([Tile "t00" 0 0; Tile "t10" 1 0] ++ Tile "t21" (-1) 5
          :: [Tile "t01" 0 1; Tile "t11" 1 1])) w0 =
  composed demo_2x2 photo_url
    (with_tiles
       (with_tiles level_2x2
          ([Tile "t00" 0 0; Tile "t10" 1 0] ++ Tile "t21" (-1) 5
             :: [Tile "t01" 0 1; Tile "t11" 1 1]))
       ([Tile "t00" 0 0; Tile "t10" 1 0] ++ [Tile "t01" 0 1; Tile "t11" 1 1]))
    w0.
Proof.
  apply (@stray_tile_leaves_no_trace demo_2x2 photo_url "B+43122"
           (with_tiles level_2x2
              ([Tile "t00" 0 0; Tile "t10" 1 0] ++ Tile "t21" (-1) 5
                 :: [Tile "t01" 0 1; Tile "t11" 1 1]))
           (Tile "t00" 0 0) (Tile "t21" (-1) 5) [Tile "t10" 1 0]
           [Tile "t01" 0 1; Tile "t11" 1 1] w0 w0).
  - reflexivity.
  - reflexivity.
  - reflexivity.
  - intros t Ht. in_tiles Ht; eexists; reflexivity.
  - intros t Ht. in_tiles Ht; reflexivity.
  - intros i j Hi Hj. apply covers_false. simpl in Hi, Hj.
    change (size (decoded demo_2x2 (Tile "t00" 0 0))) with (50, 50).
    change (size (decoded demo_2x2 (Tile "t21" (-1) 5))) with (50, 50).
    simpl. lia.
Defined.

(** ** Beyond the range of a C int *)

Lemma for_tiles_start (E : env) (url g : string) (t0 : tile)
    (rest : list tile) (st : locals) (w : world) :
  re_search_resource url = Some g ->
  all_decode E (t0 :: rest) ->
  all_paste E (size (decoded E t0)) (t0 :: rest) ->
  for_tiles E url 0 (t0 :: rest) st w =
    (Ok (Locals (fold_left (place E (size (decoded E t0))) (t0 :: rest) (img st))
                (Some (size (decoded E t0))) (Some g)),
     logged w (map tile_url (t0 :: rest))).
Proof.
  intros Hg Hall Hfit.
  destruct (Hall t0 (or_introl eq_refl)) as [im0 H0].
  assert (Hd : decoded E t0 = im0) by (unfold decoded; now rewrite H0).
  rewrite Hd in *.
  assert (Hbox := Hfit t0 (or_introl eq_refl)). rewrite Hd in Hbox.
  unfold tile_image in H0.
  destruct (requests_get E (tile_url t0)) as [r|] eqn:Hget; [|discriminate].
  rewrite for_tiles_cons, Hget, H0. cbn [Nat.eqb].
  change (tile_x t0 * fst (size im0), tile_y t0 * snd (size im0))
    with (offset (size im0) t0).
  rewrite (Image_paste_ok _ _ _ Hbox), Hg.
  rewrite for_tiles_ok with (cell := size im0) (g := g);
    [|exact Hg|reflexivity|intros t' Ht'; apply Hall; now right
     |intros t' Ht'; apply Hfit; now right].
  cbn [img fold_left map]. rewrite logged_logged. cbn [app].
  unfold place at 3. rewrite Hd. now destruct rest.
Qed.

(** X13: a tile whose box has a corner outside the range of a C int (a grid
    index times the cell size of 2^31 or more, say) stops the run at its
    [paste] with OverflowError, once the canvas has been handed out and the
    tiles before it pasted: that tile has been requested, none after it,
    and nothing is saved. *)
Theorem far_tile_overflows (E : env) (url : string) (lvl : level)
    (w : world) (pre post : list tile) (t : tile) (im : image) :
  selected E url = Ok lvl ->
  Image_new E (level_width lvl) (level_height lvl)
    = Ok (blank (level_width lvl) (level_height lvl)) ->
  (pre <> [] -> re_search_resource url <> None) ->
  level_tiles lvl = pre ++ t :: post ->
  all_decode E pre ->
  all_paste E (first_cell E (level_tiles lvl)) pre ->
  tile_image E t = Ok im ->
  box_fits (offset (first_cell E (level_tiles lvl)) t) (size im) = false ->
  exists msg,
    download_image E url w =
      (Raise (OverflowError msg),
       logged w (tiles_json_url url :: map tile_url pre ++ [tile_url t])).
Proof.
  intros Hsel Hnew Hid Hts Hpre Hfit Him Hbox.
  rewrite download_image_cases, Hsel.
  unfold compose. rewrite Hnew, Hts.
  unfold bind at 1. unfold lift at 1.
  rewrite Hts in Hfit, Hbox.
  assert (Him' := Him). unfold tile_image in Him'.
  destruct (requests_get E (tile_url t)) as [r|] eqn:Hget; [|discriminate].
  destruct pre as [|p pre].
  - cbn [app first_cell] in *. rewrite (decoded_ok _ _ Him) in Hbox.
    rewrite for_tiles_cons, Hget, Him'. cbn [Nat.eqb img].
    change (tile_x t * fst (size im), tile_y t * snd (size im))
      with (offset (size im) t).
    destruct (Image_paste_overflow
                (blank (level_width lvl) (level_height lvl)) im _ Hbox)
      as [msg Hmsg].
    rewrite Hmsg. exists msg. now rewrite logged_logged.
  - destruct (re_search_resource url) as [g|] eqn:Hg;
      [|exfalso; apply Hid; [discriminate|reflexivity]].
    change (first_cell E ((p :: pre) ++ t :: post))
      with (size (decoded E p)) in *.
    rewrite for_tiles_app.
    rewrite (@for_tiles_start E url g p pre _ _ Hg Hpre Hfit).
    cbn [length Nat.add]. rewrite for_tiles_cons, Hget, Him'.
    cbn [Nat.eqb tile_wh img].
    change (tile_x t * fst (size (decoded E p)),
            tile_y t * snd (size (decoded E p)))
      with (offset (size (decoded E p)) t).
    destruct (Image_paste_overflow
                (fold_left (place E (size (decoded E p))) (p :: pre)
                   (blank (level_width lvl) (level_height lvl))) im _ Hbox)
      as [msg Hmsg].
    rewrite Hmsg. exists msg. now rewrite !logged_logged.
Qed.

Lemma far_tile_overflows_witness :
  exists msg,
    download_image
      (demo_env all_200
         [Level "z0" 100 100 [Tile "t00" 0 0; Tile "t10" 42949673 0]])
      photo_url w0 =
    (Raise (OverflowError msg),
     logged w0 (tiles_json_url photo_url
                  :: map tile_url [Tile "t00" 0 0] ++ ["t10"])).
Proof.
  apply (@far_tile_overflows
           (demo_env all_200
              [Level "z0" 100 100 [Tile "t00" 0 0; Tile "t10" 42949673 0]])
           photo_url
           (Level "z0" 100 100 [Tile "t00" 0 0; Tile "t10" 42949673 0])
           w0 [Tile "t00" 0 0] [] (Tile "t10" 42949673 0) (ramp 50 50 1)).
  - reflexivity.
  - reflexivity.
  - intros _. discriminate.
  - reflexivity.
  - intros t Ht. in_tiles Ht; eexists; reflexivity.
  - intros t Ht. in_tiles Ht; reflexivity.
  - reflexivity.
  - reflexivity.
Defined.

Lemma Image_new_overflow (E : env) (w h : Z) :
  0 <= w -> 0 <= h -> INT_MAX < w \/ INT_MAX < h ->
  exists msg, Image_new E w h = Raise (OverflowError msg).
Proof.
  intros Hw Hh Hbig. unfold Image_new.
  replace (w <? 0) with false by (symmetry; apply Z.ltb_ge; lia).
  replace (h <? 0) with false by (symmetry; apply Z.ltb_ge; lia).
  cbn [orb].
  destruct (fits_c_int w) eqn:Hfw.
  - rewrite (as_c_int_ok _ Hfw).
    apply fits_c_int_spec in Hfw.
    assert (Hfh : fits_c_int h = false).
    { destruct (fits_c_int h) eqn:Hfh; [|reflexivity].
      apply fits_c_int_spec in Hfh. lia. }
    destruct (as_c_int_overflow _ Hfh) as [msg ->]. eauto.
  - destruct (as_c_int_overflow _ Hfw) as [msg ->]. eauto.
Qed.

(** X14: a level whose width or height exceeds the range of a C int stops
    the run at [Image.new] with OverflowError, and a canvas the allocator
    refuses stops it there with what the allocator raised: in both cases
    the descriptor has been requested and no tile has. *)
Theorem huge_canvas_requests_no_tile (E : env) (url : string) (w : world)
    (lvl : level) :
  selected E url = Ok lvl ->
  0 <= level_width lvl -> 0 <= level_height lvl ->
  (INT_MAX < level_width lvl \/ INT_MAX < level_height lvl ->
   exists msg,
     download_image E url w =
       (Raise (OverflowError msg), logged w [tiles_json_url url])) /\
  (forall e,
      level_width lvl <= INT_MAX -> level_height lvl <= INT_MAX ->
      Image_alloc E (level_width lvl) (level_height lvl) = Some e ->
      download_image E url w = (Raise e, logged w [tiles_json_url url])).
Proof.
  intros Hsel Hw Hh. rewrite download_image_cases, Hsel. split.
  - intros Hbig.
    destruct (Image_new_overflow E Hw Hh Hbig) as [msg Hmsg].
    exists msg. now rewrite (@compose_refused E url lvl _ _ Hmsg).
  - intros e Hwm Hhm Halloc.
    assert (Hnew : Image_new E (level_width lvl) (level_height lvl) = Raise e).
    { unfold Image_new.
      replace (level_width lvl <? 0) with false
        by (symmetry; apply Z.ltb_ge; lia).
      replace (level_height lvl <? 0) with false
        by (symmetry; apply Z.ltb_ge; lia).
      cbn [orb].
      rewrite (as_c_int_ok (level_width lvl)), (as_c_int_ok (level_height lvl)),
        Halloc; [reflexivity| |]; apply fits_c_int_spec; unfold INT_MIN; lia. }
    now rewrite (@compose_refused E url lvl _ _ Hnew).
Qed.

Lemma huge_canvas_requests_no_tile_witness :
  exists msg,
    download_image
      (demo_env all_200 [Level "z0" 2147483648 100 [Tile "t00" 0 0]])
      photo_url w0 =
    (Raise (OverflowError msg), logged w0 [tiles_json_url photo_url]).
Proof.
  apply (proj1 (@huge_canvas_requests_no_tile
                  (demo_env all_200 [Level "z0" 2147483648 100 [Tile "t00" 0 0]])
                  photo_url w0 (Level "z0" 2147483648 100 [Tile "t00" 0 0])
                  eq_refl ltac:(simpl; lia) ltac:(simpl; lia))).
  left. simpl. unfold INT_MAX. lia.
Defined.
